(** * WADGEN.Ticket: a shallow embedding of [Ticket.py]

    The Ticket record of the Wii/DSi digital-distribution format: its
    binary codec ([parse]/[pack]), the common-key resolver, the title-id
    and title-key accessors and the fakesigning search.

    Python values are modelled as follows: [bytes] objects are lists of
    [Byte.byte]; [int] is [Z] (unbounded, as in Python); [str] is
    [string]; an exception is the [Err] branch of [result].  The
    collaborators imported from the [WADGEN] package ([Signature],
    [Certificate], the key constants and [utils.Crypto]) are the fields
    of the class [WADGEN], over which everything else is stated. *)

From Stdlib Require Import ZArith List Bool String Ascii Lia.
From Stdlib Require Import Strings.Byte.
Import ListNotations.

Open Scope Z_scope.

(** ** Python values and exceptions *)

Definition bytes := list byte.

(** The statements of [Ticket.parse]/[Ticket.pack] that call into
    [struct]; a [struct.error] is tagged with the statement raising it
    (the line the traceback points at). *)
Inductive field :=
| F_consoleid
| F_titleid
| F_titleversion
| F_permitted_titles_mask
| F_permit_mask
| F_export_allowed
| F_ckeyindex
| F_padding
| F_iv.

Inductive exn :=
| struct_error (f : field)
| ValueError (msg : string)
| Exception (msg : string)
| binascii_Error (msg : string)
| SignatureError
| CertificateError.

Inductive result (A : Type) :=
| Ok (a : A)
| Err (e : exn).

Arguments Ok {A} a.
Arguments Err {A} e.

Definition bind {A B} (c : result A) (k : A -> result B) : result B :=
  match c with
  | Ok a => k a
  | Err e => Err e
  end.

Declare Scope py_scope.
Delimit Scope py_scope with py.
Notation "x <- c ;; k" := (bind c (fun x => k))
  (at level 61, c at next level, right associativity) : py_scope.
Open Scope py_scope.

(** ** Bytes and big-endian integers *)

Definition byte_to_Z (b : byte) : Z := Z.of_N (Byte.to_N b).

Definition byte_of_Z (z : Z) : byte :=
  match Byte.of_N (Z.to_N (Z.land z 255)) with
  | Some b => b
  | None => x00
  end.

(** [n] bytes of [v], most significant first. *)
Fixpoint be_encode (n : nat) (v : Z) : bytes :=
  match n with
  | O => []
  | S k => byte_of_Z (Z.shiftr v (8 * Z.of_nat k)) :: be_encode k v
  end.

Definition be_decode (bs : bytes) : Z :=
  fold_left (fun acc b => acc * 256 + byte_to_Z b) bs 0.

(** [struct.pack(">B" | ">H" | ">L" | ">Q", v)]: [n] is the width in
    bytes; a value outside [0, 256^n) raises [struct.error]. *)
Definition struct_pack_uint (f : field) (n : nat) (v : Z) : result bytes :=
  if (0 <=? v) && (v <? 2 ^ (8 * Z.of_nat n))
  then Ok (be_encode n v)
  else Err (struct_error f).

(** [struct.unpack(fmt, b)[0]]: the buffer must have exactly the width
    of the format. *)
Definition struct_unpack_uint (f : field) (n : nat) (b : bytes) : result Z :=
  if Nat.eqb (List.length b) n
  then Ok (be_decode b)
  else Err (struct_error f).

(** [struct.pack(">?", v)] writes 0x01 or 0x00. *)
Definition struct_pack_bool (v : bool) : bytes :=
  [if v then x01 else x00].

(** [struct.unpack(">?", b)[0]]: any non-zero byte is [True]. *)
Definition struct_unpack_bool (f : field) (b : bytes) : result bool :=
  match b with
  | [x] => Ok (negb (Byte.eqb x x00))
  | _ => Err (struct_error f)
  end.

Definition zeros (n : nat) : bytes := repeat x00 n.

(** ** Streams ([io.BytesIO])

    A stream is the list of bytes from the current position on.
    [f.read(n)] returns at most [n] bytes and never fails: at the end of
    the stream it returns what is left. *)

Definition parser (A : Type) := bytes -> result (A * bytes).

Definition pret {A} (a : A) : parser A := fun s => Ok (a, s).

Definition pbind {A B} (p : parser A) (k : A -> parser B) : parser B :=
  fun s =>
    match p s with
    | Ok (a, s') => k a s'
    | Err e => Err e
    end.

Declare Scope parser_scope.
Delimit Scope parser_scope with parser.
Notation "x <~ p ;; k" := (pbind p (fun x => k))
  (at level 61, p at next level, right associativity) : parser_scope.

Definition f_read (n : nat) : parser bytes :=
  fun s => Ok (firstn n s, skipn n s).

Definition unpack_uint (f : field) (n : nat) : parser Z :=
  fun s =>
    match struct_unpack_uint f n (firstn n s) with
    | Ok v => Ok (v, skipn n s)
    | Err e => Err e
    end.

Definition unpack_bool (f : field) : parser bool :=
  fun s =>
    match struct_unpack_bool f (firstn 1 s) with
    | Ok v => Ok (v, skipn 1 s)
    | Err e => Err e
    end.

(** A collaborator's constructor called on the stream ([Signature(f)],
    [Certificate(f)]). *)
Definition sub_parse {A} (p : bytes -> option (A * bytes)) (e : exn)
  : parser A :=
  fun s =>
    match p s with
    | Some r => Ok r
    | None => Err e
    end.

(** ** Python strings *)

Open Scope string_scope.
Open Scope list_scope.
Open Scope Z_scope.

Definition code (c : ascii) : Z := Z.of_N (N_of_ascii c).

Definition chr (z : Z) : ascii := ascii_of_N (Z.to_N z).

(** [s.startswith(p)] *)
Definition startswith (s p : string) : bool := String.prefix p s.

Definition hex_digit_upper (d : Z) : ascii :=
  if d <? 10 then chr (48 + d) else chr (55 + d).

Fixpoint hex_upper_aux (fuel : nat) (n : Z) (acc : string) : string :=
  match fuel with
  | O => acc
  | S k =>
      let acc' := String (hex_digit_upper (n mod 16)) acc in
      if n / 16 =? 0 then acc' else hex_upper_aux k (n / 16) acc'
  end.

(** The upper-case hexadecimal digits of [n >= 0], without padding. *)
Definition hex_upper (n : Z) : string :=
  hex_upper_aux (S (Z.to_nat (Z.log2 n))) n "".

Fixpoint string_repeat (c : ascii) (n : nat) : string :=
  match n with
  | O => ""
  | S k => String c (string_repeat c k)
  end.

Definition lpad0 (w : nat) (s : string) : string :=
  (string_repeat "0" (w - String.length s) ++ s)%string.

(** ["{:08X}".format(n)]: zero padding to width 8 counts the sign. *)
Definition format_08X (n : Z) : string :=
  if n <? 0 then String "-" (lpad0 7 (hex_upper (- n)))
  else lpad0 8 (hex_upper n).

(** [s.zfill(w)]: the zeros go after a leading sign. *)
Definition zfill (w : nat) (s : string) : string :=
  match s with
  | String c s' =>
      if (Ascii.eqb c "+" || Ascii.eqb c "-")%bool
      then String c (string_repeat "0" (w - String.length s) ++ s')%string
      else (string_repeat "0" (w - String.length s) ++ s)%string
  | EmptyString => string_repeat "0" w
  end.

Definition lower_char (c : ascii) : ascii :=
  if ((65 <=? code c) && (code c <=? 90))%bool then chr (code c + 32) else c.

Fixpoint lower (s : string) : string :=
  match s with
  | EmptyString => EmptyString
  | String c s' => String (lower_char c) (lower s')
  end.

Definition hex_value (c : ascii) : option Z :=
  let n := code c in
  if ((48 <=? n) && (n <=? 57))%bool then Some (n - 48)
  else if ((65 <=? n) && (n <=? 70))%bool then Some (n - 55)
  else if ((97 <=? n) && (n <=? 102))%bool then Some (n - 87)
  else None.

(** White space as [int()] sees it in a [str] of code points below 256:
    the C [isspace] characters, and NEL and the no-break space, which
    are turned into blanks before the scan. *)
Definition is_space (c : ascii) : bool :=
  let n := code c in
  ((9 <=? n) && (n <=? 13) || (n =? 32) || (n =? 133) || (n =? 160))%bool.

Fixpoint lstrip (s : string) : string :=
  match s with
  | String c s' => if is_space c then lstrip s' else s
  | EmptyString => EmptyString
  end.

Fixpoint all_space (s : string) : bool :=
  match s with
  | String c s' => (is_space c && all_space s')%bool
  | EmptyString => true
  end.

(** The digit loop of [int(s, 16)]: hexadecimal digits, single
    underscores allowed between them.  Returns the value, the number of
    digits and what follows them. *)
Fixpoint scan_hex (s : string) (prev_us : bool) (acc : Z) (n : nat)
  : option (Z * nat * string) :=
  match s with
  | EmptyString => if prev_us then None else Some (acc, n, s)
  | String c s' =>
      if Ascii.eqb c "_" then
        if prev_us then None else scan_hex s' true acc n
      else
        match hex_value c with
        | Some d => scan_hex s' false (acc * 16 + d) (S n)
        | None => if prev_us then None else Some (acc, n, s)
        end
  end.

Definition invalid_literal : exn :=
  ValueError "invalid literal for int() with base 16".

(** [int(s, 16)]: surrounding white space, an optional sign, an optional
    [0x]/[0X] prefix (which one underscore may follow), then the
    digits. *)
Definition int_base16 (s : string) : result Z :=
  let s1 := lstrip s in
  let '(negative, s2) :=
    match s1 with
    | String c r =>
        if Ascii.eqb c "-" then (true, r)
        else if Ascii.eqb c "+" then (false, r)
        else (false, s1)
    | EmptyString => (false, s1)
    end in
  let s3 :=
    match s2 with
    | String c0 (String c1 r) =>
        if (Ascii.eqb c0 "0" && (Ascii.eqb c1 "x" || Ascii.eqb c1 "X"))%bool
        then match r with
             | String c2 r' => if Ascii.eqb c2 "_" then r' else r
             | EmptyString => r
             end
        else s2
    | _ => s2
    end in
  match s3 with
  | String c _ =>
      if Ascii.eqb c "_" then Err invalid_literal
      else
        match scan_hex s3 false 0 0 with
        | Some (v, n, rest) =>
            if (Nat.eqb n 0 || negb (all_space rest))%bool
            then Err invalid_literal
            else Ok (if negative then - v else v)
        | None => Err invalid_literal
        end
  | EmptyString => Err invalid_literal
  end.

Definition byte_of_ascii (c : ascii) : byte := Ascii.byte_of_ascii c.

Fixpoint encode_ascii (s : string) : option bytes :=
  match s with
  | EmptyString => Some []
  | String c s' =>
      if code c <? 128
      then option_map (cons (byte_of_ascii c)) (encode_ascii s')
      else None
  end.

Fixpoint unhex_pairs (b : bytes) : option bytes :=
  match b with
  | [] => Some []
  | hi :: lo :: r =>
      match hex_value (ascii_of_byte hi), hex_value (ascii_of_byte lo),
            unhex_pairs r with
      | Some h, Some l, Some r' => Some (byte_of_Z (16 * h + l) :: r')
      | _, _, _ => None
      end
  | [_] => None
  end.

(** [binascii.a2b_hex] on a bytes-like argument. *)
Definition a2b_hex (b : bytes) : result bytes :=
  if Nat.odd (List.length b) then Err (binascii_Error "Odd-length string")
  else match unhex_pairs b with
       | Some r => Ok r
       | None => Err (binascii_Error "Non-hexadecimal digit found")
       end.

Definition hex_digit_lower (d : Z) : ascii :=
  if d <? 10 then chr (48 + d) else chr (87 + d).

(** [binascii.hexlify(b).decode()] *)
Fixpoint hexlify (b : bytes) : string :=
  match b with
  | [] => ""
  | x :: r =>
      String (hex_digit_lower (byte_to_Z x / 16))
        (String (hex_digit_lower (byte_to_Z x mod 16)) (hexlify r))
  end.

(** [binascii.a2b_hex] on a [str]: accepted when it is ASCII only. *)
Definition a2b_hex_str (s : string) : result bytes :=
  match encode_ascii s with
  | Some b => a2b_hex b
  | None =>
      Err (ValueError "string argument should contain only ASCII characters")
  end.

Definition IndexError : exn := Exception "IndexError: list index out of range".

(** [l[i]]: negative indices count from the end; [None] is IndexError. *)
Definition py_index {A} (l : list A) (i : Z) : option A :=
  let n := Z.of_nat (List.length l) in
  if ((0 <=? i) && (i <? n))%bool then nth_error l (Z.to_nat i)
  else if ((- n <=? i) && (i <? 0))%bool then nth_error l (Z.to_nat (n + i))
  else None.

(** ** The collaborators imported from the [WADGEN] package

    [Signature] and [Certificate] are self-parsing blocks: their
    constructor reads from the stream it is given.  The key constants
    and the [utils.Crypto] primitives are taken as they are. *)

Class WADGEN := {
  Signature : Type;
  Certificate : Type;
  (** [Signature(sigtype=n)] *)
  Signature_new : Z -> Signature;
  (** [Signature(f)]: the block read and the rest of the stream *)
  Signature_parse : bytes -> option (Signature * bytes);
  Signature_pack : Signature -> bytes;
  Signature_zerofill : Signature -> Signature;
  (** [Certificate(sigtype=n, keytype=k)] *)
  Certificate_new : Z -> Z -> Certificate;
  Certificate_parse : bytes -> option (Certificate * bytes);
  Certificate_pack : Certificate -> bytes;
  DSI_KEY : bytes;
  DECRYPTION_KEYS : list bytes;
  (** [utils.Crypto.decrypt_titlekey(commonkey, iv, titlekey)] *)
  decrypt_titlekey : bytes -> bytes -> bytes -> bytes;
  (** [utils.Crypto.encrypt_titlekey(commonkey, iv, titlekey)]: like its
      inverse it returns [bytes] *)
  encrypt_titlekey : bytes -> bytes -> bytes -> bytes;
  (** [utils.Crypto.create_sha1hash_hex(data)]: the digest as a
      hexadecimal string *)
  create_sha1hash_hex : bytes -> string;
}.

(** ** class Ticket *)

Section Ticket.

Context `{W : WADGEN}.

Record Ticket := mkTicket {
  signature : Signature;
  issuer : bytes;
  ecdhdata : bytes;
  unused1 : bytes;
  titlekey : bytes;
  unknown1 : bytes;
  ticketid : bytes;
  consoleid : Z;
  titleid : Z;
  unknown2 : bytes;
  titleversion : Z;
  permitted_titles_mask : Z;
  permit_mask : Z;
  export_allowed : bool;
  ckeyindex : Z;
  unknown3 : bytes;
  content_access_permissions : bytes;
  padding : Z;
  limits : bytes;
  certificates : list Certificate;
}.

(** [__init__] without a file: the all-zero ticket. *)
Definition Ticket_init : Ticket :=
  {| signature := Signature_new 65537;
     issuer := zeros 64;
     ecdhdata := zeros 60;
     unused1 := zeros 3;
     titlekey := zeros 16;
     unknown1 := zeros 1;
     ticketid := zeros 8;
     consoleid := 0;
     titleid := 0;
     unknown2 := zeros 2;
     titleversion := 0;
     permitted_titles_mask := 0;
     permit_mask := 0;
     export_allowed := false;
     ckeyindex := 0;
     unknown3 := zeros 48;
     content_access_permissions := zeros 64;
     padding := 0;
     limits := zeros 64;
     certificates := [Certificate_new 65537 1; Certificate_new 65536 1] |}.

(** Attribute assignments [self.x = v]. *)

Definition with_signature (t : Ticket) (v : Signature) : Ticket :=
  mkTicket v (issuer t) (ecdhdata t) (unused1 t) (titlekey t) (unknown1 t)
    (ticketid t) (consoleid t) (titleid t) (unknown2 t) (titleversion t)
    (permitted_titles_mask t) (permit_mask t) (export_allowed t) (ckeyindex t)
    (unknown3 t) (content_access_permissions t) (padding t) (limits t)
    (certificates t).

Definition with_titlekey (t : Ticket) (v : bytes) : Ticket :=
  mkTicket (signature t) (issuer t) (ecdhdata t) (unused1 t) v (unknown1 t)
    (ticketid t) (consoleid t) (titleid t) (unknown2 t) (titleversion t)
    (permitted_titles_mask t) (permit_mask t) (export_allowed t) (ckeyindex t)
    (unknown3 t) (content_access_permissions t) (padding t) (limits t)
    (certificates t).

Definition with_titleid (t : Ticket) (v : Z) : Ticket :=
  mkTicket (signature t) (issuer t) (ecdhdata t) (unused1 t) (titlekey t)
    (unknown1 t) (ticketid t) (consoleid t) v (unknown2 t) (titleversion t)
    (permitted_titles_mask t) (permit_mask t) (export_allowed t) (ckeyindex t)
    (unknown3 t) (content_access_permissions t) (padding t) (limits t)
    (certificates t).

Definition with_titleversion (t : Ticket) (v : Z) : Ticket :=
  mkTicket (signature t) (issuer t) (ecdhdata t) (unused1 t) (titlekey t)
    (unknown1 t) (ticketid t) (consoleid t) (titleid t) (unknown2 t) v
    (permitted_titles_mask t) (permit_mask t) (export_allowed t) (ckeyindex t)
    (unknown3 t) (content_access_permissions t) (padding t) (limits t)
    (certificates t).

Definition with_ckeyindex (t : Ticket) (v : Z) : Ticket :=
  mkTicket (signature t) (issuer t) (ecdhdata t) (unused1 t) (titlekey t)
    (unknown1 t) (ticketid t) (consoleid t) (titleid t) (unknown2 t)
    (titleversion t) (permitted_titles_mask t) (permit_mask t)
    (export_allowed t) v (unknown3 t) (content_access_permissions t)
    (padding t) (limits t) (certificates t).

Definition with_padding (t : Ticket) (v : Z) : Ticket :=
  mkTicket (signature t) (issuer t) (ecdhdata t) (unused1 t) (titlekey t)
    (unknown1 t) (ticketid t) (consoleid t) (titleid t) (unknown2 t)
    (titleversion t) (permitted_titles_mask t) (permit_mask t)
    (export_allowed t) (ckeyindex t) (unknown3 t)
    (content_access_permissions t) v (limits t) (certificates t).

(** *** parse

    Every attribute is assigned on the way, so the ticket a successful
    [parse] leaves does not depend on the one it started from.  The
    stream is read from position 0; what is left of it after the second
    certificate is returned next to the ticket. *)

Open Scope parser_scope.

Definition parse_stream : parser Ticket :=
  sg <~ sub_parse Signature_parse SignatureError ;;
  iss <~ f_read 64 ;;
  ecdh <~ f_read 60 ;;
  un1 <~ f_read 3 ;;
  tkey <~ f_read 16 ;;
  unk1 <~ f_read 1 ;;
  tikid <~ f_read 8 ;;
  cid <~ unpack_uint F_consoleid 4 ;;
  tid <~ unpack_uint F_titleid 8 ;;
  unk2 <~ f_read 2 ;;
  tver <~ unpack_uint F_titleversion 2 ;;
  ptm <~ unpack_uint F_permitted_titles_mask 4 ;;
  pm <~ unpack_uint F_permit_mask 4 ;;
  exp <~ unpack_bool F_export_allowed ;;
  cki <~ unpack_uint F_ckeyindex 1 ;;
  unk3 <~ f_read 48 ;;
  cap <~ f_read 64 ;;
  pad <~ unpack_uint F_padding 2 ;;
  lim <~ f_read 64 ;;
  c0 <~ sub_parse Certificate_parse CertificateError ;;
  c1 <~ sub_parse Certificate_parse CertificateError ;;
  pret (mkTicket sg iss ecdh un1 tkey unk1 tikid cid tid unk2 tver ptm pm exp
          cki unk3 cap pad lim [c0; c1]).

Close Scope parser_scope.

Definition parse (b : bytes) : result Ticket :=
  match parse_stream b with
  | Ok (t, _) => Ok t
  | Err e => Err e
  end.

(** *** pack *)

Definition pack (t : Ticket) (include_signature include_certificates : bool)
  : result bytes :=
  let p := [] in
  let p := if include_signature then p ++ Signature_pack (signature t) else p in
  let p := p ++ issuer t in
  let p := p ++ ecdhdata t in
  let p := p ++ unused1 t in
  let p := p ++ titlekey t in
  let p := p ++ unknown1 t in
  let p := p ++ ticketid t in
  b <- struct_pack_uint F_consoleid 4 (consoleid t) ;;
  let p := p ++ b in
  b <- struct_pack_uint F_titleid 8 (titleid t) ;;
  let p := p ++ b in
  let p := p ++ unknown2 t in
  b <- struct_pack_uint F_titleversion 2 (titleversion t) ;;
  let p := p ++ b in
  b <- struct_pack_uint F_permitted_titles_mask 4 (permitted_titles_mask t) ;;
  let p := p ++ b in
  b <- struct_pack_uint F_permit_mask 4 (permit_mask t) ;;
  let p := p ++ b in
  let p := p ++ struct_pack_bool (export_allowed t) in
  b <- struct_pack_uint F_ckeyindex 1 (ckeyindex t) ;;
  let p := p ++ b in
  let p := p ++ unknown3 t in
  let p := p ++ content_access_permissions t in
  b <- struct_pack_uint F_padding 2 (padding t) ;;
  let p := p ++ b in
  let p := p ++ limits t in
  Ok (if include_certificates
      then fold_left (fun p cert => p ++ Certificate_pack cert)
             (certificates t) p
      else p).

(** *** Accessors *)

Definition get_signature (t : Ticket) : Signature := signature t.

Definition get_certificates (t : Ticket) : list Certificate := certificates t.

Definition get_certificate (t : Ticket) (i : Z) : result Certificate :=
  match py_index (get_certificates t) i with
  | Some c => Ok c
  | None => Err IndexError
  end.

Definition get_titleid (t : Ticket) : string :=
  lower (zfill 16 (format_08X (titleid t))).

Definition get_titleversion (t : Ticket) : Z := titleversion t.

Definition get_iv (t : Ticket) : result bytes :=
  b <- struct_pack_uint F_iv 8 (titleid t) ;;
  Ok (b ++ zeros 8).

Definition get_iv_hex (t : Ticket) : result string :=
  iv <- get_iv t ;;
  Ok (hexlify iv).

Definition get_consoleid (t : Ticket) : Z := consoleid t.

Definition unknown_key_warning : string :=
  "WARNING: Unknown Common Key, assuming normal key".

(** Returns the lines printed and the key; the [IndexError] of the
    handler's own [DECRYPTION_KEYS[0]] is not caught. *)
Definition get_decryption_key (t : Ticket) : list string * result bytes :=
  if startswith (get_titleid t) "00030" then ([], Ok DSI_KEY)
  else
    match py_index DECRYPTION_KEYS (ckeyindex t) with
    | Some k => ([], Ok k)
    | None =>
        ([unknown_key_warning],
         match py_index DECRYPTION_KEYS 0 with
         | Some k => Ok k
         | None => Err IndexError
         end)
    end.

Definition key_types : list string :=
  ["Normal"; "Korean"; "Wii U Wii Mode"].

Definition get_common_key_type (t : Ticket) : string :=
  if startswith (get_titleid t) "00030" then "DSi"
  else
    match py_index key_types (ckeyindex t) with
    | Some name => name
    | None => "Unknown"
    end.

Definition get_encrypted_titlekey (t : Ticket) : bytes := titlekey t.

Definition get_encrypted_titlekey_hex (t : Ticket) : string :=
  hexlify (titlekey t).

Definition get_decrypted_titlekey (t : Ticket) : list string * result bytes :=
  let '(out, rk) := get_decryption_key t in
  (out,
   commonkey <- rk ;;
   iv <- get_iv t ;;
   Ok (decrypt_titlekey commonkey iv (get_encrypted_titlekey t))).

Definition get_decrypted_titlekey_hex (t : Ticket)
  : list string * result string :=
  let '(out, r) := get_decrypted_titlekey t in
  (out, k <- r ;; Ok (hexlify k)).

(** *** Setters *)

Definition set_titleid (t : Ticket) (tid : string) : result Ticket :=
  if negb (Nat.eqb (String.length tid) 16)
  then Err (ValueError "Title ID must be 16 characters long.")
  else
    val <- int_base16 tid ;;
    Ok (with_titleid t val).

Definition set_titleversion (t : Ticket) (ver : Z) : result Ticket :=
  if negb ((0 <=? ver) && (ver <=? 65535))
  then Err (Exception "Invalid title version.")
  else Ok (with_titleversion t ver).

Definition set_common_key_index (t : Ticket) (i : Z) : result Ticket :=
  if negb ((0 <=? i) && (i <=? 2))
  then Err (Exception "Invalid Common-Key index!")
  else Ok (with_ckeyindex t i).

(** [key] is rebound to the [bytes] that [encrypt_titlekey] returns when
    [encrypted] is false, and [a2b_hex] is then applied to those. *)
Definition set_titlekey (t : Ticket) (key : string) (encrypted : bool)
  : list string * result Ticket :=
  if negb (Nat.eqb (String.length key) 32)
  then ([], Err (Exception "Key must be 32 characters long."))
  else if negb encrypted then
    let '(out, rk) := get_decryption_key t in
    (out,
     commonkey <- rk ;;
     iv <- get_iv t ;;
     plain <- a2b_hex_str key ;;
     let key' := encrypt_titlekey commonkey iv plain in
     tk <- a2b_hex key' ;;
     Ok (with_titlekey t tk))
  else
    ([], tk <- a2b_hex_str key ;; Ok (with_titlekey t tk)).

(** *** fakesign

    The ticket is mutated in place, so the function returns the ticket
    as the call leaves it next to the way the call ends. *)

(** [for i in range(n)] from [i] on; [Ok true] is the [return] inside
    the loop, [Ok false] the end of the range. *)
Fixpoint fakesign_loop (n : nat) (i : Z) (t : Ticket) : Ticket * result bool :=
  match n with
  | O => (t, Ok false)
  | S n' =>
      let t' := with_padding t i in
      match pack t' false false with
      | Err e => (t', Err e)
      | Ok b =>
          if startswith (create_sha1hash_hex b) "00" then (t', Ok true)
          else fakesign_loop n' (i + 1) t'
      end
  end.

Definition fakesign_failed : exn := Exception "Fakesigning failed.".

Definition fakesign (t : Ticket) : Ticket * result unit :=
  let oldval := padding t in
  let t0 := with_signature t (Signature_zerofill (signature t)) in
  match fakesign_loop (Z.to_nat 65535) 0 t0 with
  | (t', Ok true) => (t', Ok tt)
  | (t', Ok false) => (with_padding t' oldval, Err fakesign_failed)
  | (t', Err e) => (t', Err e)
  end.

End Ticket.

(** ** Properties the statements below are about *)

Section Predicates.

Context `{W : WADGEN}.

(** The integer attributes fit their [struct] formats. *)
Definition packable (t : Ticket) : Prop :=
  0 <= consoleid t < 2 ^ 32 /\
  0 <= titleid t < 2 ^ 64 /\
  0 <= titleversion t < 2 ^ 16 /\
  0 <= permitted_titles_mask t < 2 ^ 32 /\
  0 <= permit_mask t < 2 ^ 32 /\
  0 <= ckeyindex t < 2 ^ 8 /\
  0 <= padding t < 2 ^ 16.

(** The byte attributes have the widths of the record layout and there
    are two certificates. *)
Definition well_sized (t : Ticket) : Prop :=
  List.length (issuer t) = 64%nat /\
  List.length (ecdhdata t) = 60%nat /\
  List.length (unused1 t) = 3%nat /\
  List.length (titlekey t) = 16%nat /\
  List.length (unknown1 t) = 1%nat /\
  List.length (ticketid t) = 8%nat /\
  List.length (unknown2 t) = 2%nat /\
  List.length (unknown3 t) = 48%nat /\
  List.length (content_access_permissions t) = 64%nat /\
  List.length (limits t) = 64%nat /\
  List.length (certificates t) = 2%nat.

(** The sub-blocks of a ticket are well formed when their parser reads
    them back from what their [pack] writes. *)
Definition signature_reads_back (s : Signature) : Prop :=
  forall rest, Signature_parse (Signature_pack s ++ rest) = Some (s, rest).

Definition certificate_reads_back (c : Certificate) : Prop :=
  forall rest, Certificate_parse (Certificate_pack c ++ rest) = Some (c, rest).

Definition valid (t : Ticket) : Prop :=
  packable t /\ well_sized t /\
  signature_reads_back (signature t) /\
  Forall certificate_reads_back (certificates t).

(** The sub-block parsers consume exactly the bytes that [pack] writes
    back for the block they return. *)
Definition codecs_pack_parse : Prop :=
  (forall b s rest,
      Signature_parse b = Some (s, rest) -> b = Signature_pack s ++ rest) /\
  (forall b c rest,
      Certificate_parse b = Some (c, rest) -> b = Certificate_pack c ++ rest).

(** The byte of the input that [parse] decodes into [export_allowed]:
    offset 176 of the record that follows the signature. *)
Definition raw_export_allowed (b : bytes) : option byte :=
  match Signature_parse b with
  | Some (_, r) => nth_error r 176
  | None => None
  end.

(** The ticket on which the search hashes candidate [p]. *)
Definition candidate (t : Ticket) (p : Z) : Ticket :=
  with_padding (with_signature t (Signature_zerofill (signature t))) p.

(** With padding [p], the digest of [u] packed without signature starts
    with the byte 0x00. *)
Definition probe (u : Ticket) (p : Z) : bool :=
  match pack (with_padding u p) false false with
  | Ok b => startswith (create_sha1hash_hex b) "00"
  | Err _ => false
  end.

(** The hash condition of the search on candidate [p]. *)
Definition hash_ok (t : Ticket) (p : Z) : bool :=
  probe (with_signature t (Signature_zerofill (signature t))) p.

(** Every attribute but [signature] and [padding] is the same. *)
Definition same_frame (t t' : Ticket) : Prop :=
  issuer t' = issuer t /\
  ecdhdata t' = ecdhdata t /\
  unused1 t' = unused1 t /\
  titlekey t' = titlekey t /\
  unknown1 t' = unknown1 t /\
  ticketid t' = ticketid t /\
  consoleid t' = consoleid t /\
  titleid t' = titleid t /\
  unknown2 t' = unknown2 t /\
  titleversion t' = titleversion t /\
  permitted_titles_mask t' = permitted_titles_mask t /\
  permit_mask t' = permit_mask t /\
  export_allowed t' = export_allowed t /\
  ckeyindex t' = ckeyindex t /\
  unknown3 t' = unknown3 t /\
  content_access_permissions t' = content_access_permissions t /\
  limits t' = limits t /\
  certificates t' = certificates t.

End Predicates.

(** The record layout of the specification: the first field, in layout
    order, that a record of [n] bytes does not hold in full. *)
Inductive layout_field :=
| L_issuer | L_ecdhdata | L_unused1 | L_titlekey | L_unknown1 | L_ticketid
| L_uint (f : field)
| L_unknown2 | L_unknown3 | L_content_access_permissions | L_limits.

Definition first_short_field (n : nat) : layout_field :=
  if (n <? 64)%nat then L_issuer
  else if (n <? 124)%nat then L_ecdhdata
  else if (n <? 127)%nat then L_unused1
  else if (n <? 143)%nat then L_titlekey
  else if (n <? 144)%nat then L_unknown1
  else if (n <? 152)%nat then L_ticketid
  else if (n <? 156)%nat then L_uint F_consoleid
  else if (n <? 164)%nat then L_uint F_titleid
  else if (n <? 166)%nat then L_unknown2
  else if (n <? 168)%nat then L_uint F_titleversion
  else if (n <? 172)%nat then L_uint F_permitted_titles_mask
  else if (n <? 176)%nat then L_uint F_permit_mask
  else if (n <? 177)%nat then L_uint F_export_allowed
  else if (n <? 178)%nat then L_uint F_ckeyindex
  else if (n <? 226)%nat then L_unknown3
  else if (n <? 290)%nat then L_content_access_permissions
  else if (n <? 292)%nat then L_uint F_padding
  else L_limits.

(** The first [struct.unpack] of [parse] that a record of [n < 292]
    bytes cannot feed. *)
Definition first_short_unpack (n : nat) : field :=
  if (n <? 156)%nat then F_consoleid
  else if (n <? 164)%nat then F_titleid
  else if (n <? 168)%nat then F_titleversion
  else if (n <? 172)%nat then F_permitted_titles_mask
  else if (n <? 176)%nat then F_permit_mask
  else if (n <? 177)%nat then F_export_allowed
  else if (n <? 178)%nat then F_ckeyindex
  else F_padding.

(** Spelled out from the specification: the 8 bytes of a 64-bit value,
    most significant first. *)
Definition bigEndian64 (v : Z) : bytes :=
  map (fun k => byte_of_Z ((v / 256 ^ k) mod 256)) [7; 6; 5; 4; 3; 2; 1; 0].

(** Spelled out from the specification: the [k] hexadecimal digits of
    [n], most significant first, zero-padded (upper case; the title id
    string is its lower-case form). *)
Fixpoint hex_fixed (k : nat) (n : Z) : string :=
  match k with
  | O => ""
  | S k' =>
      (hex_fixed k' (n / 16)
       ++ String (hex_digit_upper (n mod 16)) "")%string
  end.

Definition is_hex (c : ascii) : bool :=
  match hex_value c with
  | Some _ => true
  | None => false
  end.

Definition is_lower_hex (c : ascii) : bool :=
  ((48 <=? code c) && (code c <=? 57)
   || (97 <=? code c) && (code c <=? 102))%bool.

Fixpoint all_chars (P : ascii -> bool) (s : string) : bool :=
  match s with
  | EmptyString => true
  | String c s' => (P c && all_chars P s')%bool
  end.

(** The number a string of hexadecimal digits writes, continuing from
    [acc]. *)
Fixpoint hex_val (acc : Z) (s : string) : Z :=
  match s with
  | EmptyString => acc
  | String c s' =>
      match hex_value c with
      | Some d => hex_val (acc * 16 + d) s'
      | None => acc
      end
  end.

(** ** The rest of class Ticket

    [get_issuers] and [get_cert_by_name].  A decoded [str] can hold any
    code point, so it is a list of code points here. *)

Definition unicode := list Z.

Definition UnicodeDecodeError : exn :=
  ValueError "UnicodeDecodeError: 'utf-8' codec can't decode".

(** [b.rstrip(b"\00")]: the trailing NUL bytes are dropped. *)
Fixpoint rstrip_nul (b : bytes) : bytes :=
  match b with
  | [] => []
  | x :: r =>
      match rstrip_nul r with
      | [] => if Byte.eqb x x00 then [] else [x]
      | r' => x :: r'
      end
  end.

Definition is_continuation (c : Z) : bool := (128 <=? c) && (c <=? 191).

Definition ucons (c : Z) (r : result unicode) : result unicode :=
  match r with
  | Ok s => Ok (c :: s)
  | Err e => Err e
  end.

(** [b.decode()]: strict UTF-8.  Overlong forms, surrogates, code points
    above 0x10FFFF and cut sequences raise. *)
Fixpoint decode_utf8 (b : bytes) : result unicode :=
  match b with
  | [] => Ok []
  | b0 :: r0 =>
      let c0 := byte_to_Z b0 in
      if c0 <? 128 then ucons c0 (decode_utf8 r0)
      else if (194 <=? c0) && (c0 <=? 223) then
        match r0 with
        | b1 :: r1 =>
            let c1 := byte_to_Z b1 in
            if is_continuation c1
            then ucons ((c0 - 192) * 64 + (c1 - 128)) (decode_utf8 r1)
            else Err UnicodeDecodeError
        | [] => Err UnicodeDecodeError
        end
      else if (224 <=? c0) && (c0 <=? 239) then
        match r0 with
        | b1 :: b2 :: r2 =>
            let c1 := byte_to_Z b1 in
            let c2 := byte_to_Z b2 in
            if ((if c0 =? 224 then 160 else 128) <=? c1)
               && (c1 <=? (if c0 =? 237 then 159 else 191))
               && is_continuation c2
            then ucons ((c0 - 224) * 4096 + (c1 - 128) * 64 + (c2 - 128))
                   (decode_utf8 r2)
            else Err UnicodeDecodeError
        | _ => Err UnicodeDecodeError
        end
      else if (240 <=? c0) && (c0 <=? 244) then
        match r0 with
        | b1 :: b2 :: b3 :: r3 =>
            let c1 := byte_to_Z b1 in
            let c2 := byte_to_Z b2 in
            let c3 := byte_to_Z b3 in
            if ((if c0 =? 240 then 144 else 128) <=? c1)
               && (c1 <=? (if c0 =? 244 then 143 else 191))
               && is_continuation c2 && is_continuation c3
            then ucons ((c0 - 240) * 262144 + (c1 - 128) * 4096
                        + (c2 - 128) * 64 + (c3 - 128))
                   (decode_utf8 r3)
            else Err UnicodeDecodeError
        | _ => Err UnicodeDecodeError
        end
      else Err UnicodeDecodeError
  end.

(** [s.split(sep)] for a one-character separator: never an empty list. *)
Fixpoint split_on (sep : Z) (s : unicode) : list unicode :=
  match s with
  | [] => [[]]
  | c :: r =>
      let parts := split_on sep r in
      if c =? sep then [] :: parts else (c :: hd [] parts) :: tl parts
  end.

(** [sep.join(parts)] *)
Fixpoint join_with (sep : Z) (parts : list unicode) : unicode :=
  match parts with
  | [] => []
  | [x] => x
  | x :: r => x ++ sep :: join_with sep r
  end.

(** The certificate name and the root key, which [get_cert_by_name]
    needs besides: [cert.get_name()], and [ROOT_KEY], which is falsy
    ([None]) when no root key is installed. *)
Class WADGEN_names `{W : WADGEN} := {
  Certificate_get_name : Certificate -> string;
  RootKey : Type;
  ROOT_KEY : option RootKey;
}.

Section TicketNames.

Context `{N : WADGEN_names}.

Definition get_issuers (t : Ticket) : result (list unicode) :=
  s <- decode_utf8 (rstrip_nul (issuer t)) ;;
  Ok (split_on 45 s).

Definition not_found (name : string) : exn :=
  ValueError ("Certificate '" ++ name ++ "' not found.")%string.

(** [for cert in certs: if cert.get_name() == name: return cert] *)
Fixpoint find_cert (certs : list Certificate) (name : string)
  : option Certificate :=
  match certs with
  | [] => None
  | cert :: r =>
      if String.eqb (Certificate_get_name cert) name then Some cert
      else find_cert r name
  end.

Definition get_cert_by_name (t : Ticket) (name : string)
  : result (Certificate + RootKey) :=
  match find_cert (get_certificates t) name with
  | Some cert => Ok (inl cert)
  | None =>
      if String.eqb name "Root" then
        match ROOT_KEY with
        | Some k => Ok (inr k)
        | None => Err (not_found name)
        end
      else Err (not_found name)
  end.

End TicketNames.

(** The bytes of an ASCII text. *)
Definition ascii_bytes (s : string) : bytes :=
  map byte_of_ascii (list_ascii_of_string s).

Definition code_points (s : string) : unicode :=
  map code (list_ascii_of_string s).

Fixpoint count_byte (x : byte) (b : bytes) : nat :=
  match b with
  | [] => 0
  | y :: r => ((if Byte.eqb y x then 1 else 0) + count_byte x r)%nat
  end.

(** ** A small instance to run the definitions on

    One-byte signature and certificate blocks, three 16-byte keys, a
    XOR stream in place of AES-CBC and a byte sum in place of SHA-1. *)

Module Sample.

Definition block_parse (s : bytes) : option (byte * bytes) :=
  match s with
  | b :: r => Some (b, r)
  | [] => None
  end.

(** [a] xor-ed with [b], the latter padded with zeros. *)
Fixpoint xor_bytes (a b : bytes) : bytes :=
  match a with
  | [] => []
  | x :: a' =>
      byte_of_Z (Z.lxor (byte_to_Z x) (byte_to_Z (hd x00 b)))
        :: xor_bytes a' (tl b)
  end.

Definition xor_cipher (k iv data : bytes) : bytes :=
  xor_bytes (xor_bytes data iv) k.

Definition sum_digest (b : bytes) : string :=
  (lower (lpad0 2 (hex_upper (fold_right Z.add 0 (map byte_to_Z b) mod 256)))
   ++ string_repeat "0" 38)%string.

Definition ff_digest (b : bytes) : string := string_repeat "f" 40.

Definition keys : list bytes := [repeat x01 16; repeat x02 16; repeat x03 16].

Definition instance (digest : bytes -> string) : WADGEN :=
  {| Signature := byte;
     Certificate := byte;
     Signature_new := fun _ => xaa;
     Signature_parse := block_parse;
     Signature_pack := fun b => [b];
     Signature_zerofill := fun _ => x00;
     Certificate_new := fun _ _ => xcc;
     Certificate_parse := block_parse;
     Certificate_pack := fun b => [b];
     DSI_KEY := repeat x0d 16;
     DECRYPTION_KEYS := keys;
     decrypt_titlekey := xor_cipher;
     encrypt_titlekey := xor_cipher;
     create_sha1hash_hex := digest |}.

Definition toy : WADGEN := instance sum_digest.

(** The same with a digest that never starts with ["00"]. *)
Definition stuck : WADGEN := instance ff_digest.

(** Title id 0001000248414341, version 5, console 7. *)
Definition ticket : @Ticket toy :=
  @mkTicket toy xaa (zeros 64) (zeros 60) (zeros 3) (zeros 16) (zeros 1)
    (zeros 8) 7 281484778881857 (zeros 2) 5 0 0 true 0 (zeros 48) (zeros 64)
    513 (zeros 64) [xcc; xcd].

(** A DSi title id (0003000f484e4c45) with a key index read from
    untrusted bytes. *)
Definition dsi_ticket : @Ticket toy :=
  with_ckeyindex (with_titleid ticket 844490567732293) 5.

(** A signature byte and the first ten bytes of a record. *)
Definition truncated : bytes := xaa :: zeros 10.

(** A signature byte and a record that stops 56 bytes short, inside
    [limits]. *)
Definition short_limits : bytes := xaa :: zeros 300.

(** [ticket] as [pack] writes it, signature and certificates included. *)
Definition packed : bytes :=
  [xaa] ++ zeros 152 ++ be_encode 4 7 ++ be_encode 8 281484778881857
  ++ zeros 2 ++ be_encode 2 5 ++ zeros 8 ++ [x01; x00] ++ zeros 112
  ++ be_encode 2 513 ++ zeros 64 ++ [xcc; xcd].

(** The same bytes with the export flag written as 0x02. *)
Definition noncanonical : bytes :=
  [xaa] ++ zeros 152 ++ be_encode 4 7 ++ be_encode 8 281484778881857
  ++ zeros 2 ++ be_encode 2 5 ++ zeros 8 ++ [x02; x00] ++ zeros 112
  ++ be_encode 2 513 ++ zeros 64 ++ [xcc; xcd].

End Sample.

(** Certificate names and a root key for the sample instance: the
    certificate byte 0xcc is "XS00000003", 0xcd is "CA00000001". *)
Module SampleNames.

Definition name_of (c : byte) : string :=
  if Byte.eqb c xcc then "XS00000003"
  else if Byte.eqb c xcd then "CA00000001"
  else "Root".

Definition names : @WADGEN_names Sample.toy :=
  {| Certificate_get_name := name_of : @Certificate Sample.toy -> string;
     RootKey := unit;
     ROOT_KEY := Some tt |}.

Definition no_root : @WADGEN_names Sample.toy :=
  {| Certificate_get_name := name_of : @Certificate Sample.toy -> string;
     RootKey := unit;
     ROOT_KEY := None |}.

(** [Sample.ticket] with the issuer "Root-CA00000001-XS00000003",
    NUL-padded to 64 bytes. *)
Definition issued : @Ticket Sample.toy :=
  @mkTicket Sample.toy xaa
    (ascii_bytes "Root-CA00000001-XS00000003" ++ zeros 38)
    (zeros 60) (zeros 3) (zeros 16) (zeros 1)
    (zeros 8) 7 281484778881857 (zeros 2) 5 0 0 true 0 (zeros 48) (zeros 64)
    513 (zeros 64) [xcc; xcd].

End SampleNames.

Example format_08X_ex1 : format_08X 255 = "000000FF".
Proof. reflexivity. Qed.
Example format_08X_ex2 : format_08X (-1) = "-0000001".
Proof. reflexivity. Qed.
Example format_08X_ex3 : format_08X 4886718345 = "123456789".
Proof. reflexivity. Qed.
Example zfill_ex1 : zfill 16 "-0000001" = "-000000000000001".
Proof. reflexivity. Qed.
Example int16_ex1 : int_base16 "0001000248414341" = Ok 281484778881857.
Proof. reflexivity. Qed.
Example int16_ex2 : int_base16 " 0xFf_0 " = Ok 4080.
Proof. reflexivity. Qed.
Example int16_ex3 : int_base16 "0x" = Err invalid_literal.
Proof. reflexivity. Qed.
Example int16_ex4 : int_base16 "1__0" = Err invalid_literal.
Proof. reflexivity. Qed.
Example int16_ex5 : int_base16 "-000000000000001" = Ok (-1).
Proof. reflexivity. Qed.
Example a2b_ex1 : a2b_hex_str "00fF10" = Ok [x00; xff; x10].
Proof. reflexivity. Qed.
Example get_issuers_ex1 :
  @get_issuers Sample.toy SampleNames.issued
  = Ok [code_points "Root"; code_points "CA00000001";
        code_points "XS00000003"].
Proof. reflexivity. Qed.
Example get_issuers_ex2 : @get_issuers Sample.toy Sample.ticket = Ok [[]].
Proof. reflexivity. Qed.
Example decode_utf8_ex1 :
  decode_utf8 [xe2; x82; xac; x41; xf0; x9f; x98; x80] = Ok [8364; 65; 128512].
Proof. reflexivity. Qed.
Example decode_utf8_ex2 : decode_utf8 [xc0; x80] = Err UnicodeDecodeError.
Proof. reflexivity. Qed.
Example decode_utf8_ex3 : decode_utf8 [xed; xa0; x80] = Err UnicodeDecodeError.
Proof. reflexivity. Qed.
Example split_on_ex1 : split_on 45 [45; 65; 45; 45] = [[]; [65]; []; []].
Proof. reflexivity. Qed.
Example get_cert_by_name_ex1 :
  @get_cert_by_name _ SampleNames.names Sample.ticket "CA00000001"
  = Ok (inl xcd).
Proof. reflexivity. Qed.
Example get_cert_by_name_ex2 :
  @get_cert_by_name _ SampleNames.no_root Sample.ticket "Root"
  = Err (not_found "Root").
Proof. reflexivity. Qed.
Example hexlify_ex1 : hexlify [x00; xff; x1a] = "00ff1a".
Proof. reflexivity. Qed.

Example sample_pack_len :
  option_map (@List.length byte)
    (match pack Sample.ticket true true with Ok b => Some b | Err _ => None end)
  = Some 359%nat.
Proof. reflexivity. Qed.
Example sample_parse_pack :
  match pack Sample.ticket true true with
  | Ok b => parse b
  | Err e => Err e
  end = Ok Sample.ticket.
Proof. reflexivity. Qed.
Example sample_titleid : get_titleid Sample.ticket = "0001000248414341".
Proof. reflexivity. Qed.
Example sample_dsi : get_titleid Sample.dsi_ticket = "0003000f484e4c45".
Proof. reflexivity. Qed.
Example sample_fakesign :
  fakesign Sample.ticket = (candidate Sample.ticket 227, Ok tt).
Proof. reflexivity. Qed.

(** * Lemmas *)

(** ** Bytes and big-endian integers *)

Lemma byte_to_Z_range (b : byte) : 0 <= byte_to_Z b < 256.
Proof.
  unfold byte_to_Z. pose proof (Byte.to_N_bounded b). lia.
Qed.

Lemma byte_of_to_Z (b : byte) : byte_of_Z (byte_to_Z b) = b.
Proof.
  destruct b; reflexivity.
Qed.

Lemma land_255 (z : Z) : Z.land z 255 = z mod 256.
Proof.
  change 255 with (Z.ones 8). rewrite Z.land_ones by lia. reflexivity.
Qed.

Lemma byte_to_of_Z (z : Z) : byte_to_Z (byte_of_Z z) = z mod 256.
Proof.
  unfold byte_of_Z, byte_to_Z. rewrite land_255.
  pose proof (Z.mod_pos_bound z 256 ltac:(lia)) as Hr.
  destruct (Byte.of_N (Z.to_N (z mod 256))) as [b|] eqn:E.
  - apply Byte.to_of_N in E. rewrite E. lia.
  - apply Byte.of_N_None_iff in E. lia.
Qed.

Lemma byte_of_Z_mod (z : Z) : byte_of_Z (z mod 256) = byte_of_Z z.
Proof.
  unfold byte_of_Z. rewrite !land_255, Z.mod_mod by lia. reflexivity.
Qed.

Lemma be_encode_length (n : nat) (v : Z) : List.length (be_encode n v) = n.
Proof.
  induction n; simpl; congruence.
Qed.

Lemma be_encode_snoc (n : nat) (v : Z) :
  be_encode (S n) v = be_encode n (v / 256) ++ [byte_of_Z v].
Proof.
  induction n as [|n IH].
  - simpl. rewrite Z.shiftr_0_r. reflexivity.
  - change (be_encode (S (S n)) v)
      with (byte_of_Z (Z.shiftr v (8 * Z.of_nat (S n))) :: be_encode (S n) v).
    rewrite IH.
    change (be_encode (S n) (v / 256))
      with (byte_of_Z (Z.shiftr (v / 256) (8 * Z.of_nat n))
              :: be_encode n (v / 256)).
    rewrite <- app_comm_cons. f_equal. apply f_equal.
    rewrite !Z.shiftr_div_pow2 by lia.
    rewrite Z.div_div by lia. f_equal.
    change 256 with (2 ^ 8). rewrite <- Z.pow_add_r by lia. f_equal. lia.
Qed.

Lemma be_decode_snoc (bs : bytes) (b : byte) :
  be_decode (bs ++ [b]) = be_decode bs * 256 + byte_to_Z b.
Proof.
  unfold be_decode. rewrite fold_left_app. reflexivity.
Qed.

Lemma be_decode_range (bs : bytes) :
  0 <= be_decode bs < 2 ^ (8 * Z.of_nat (List.length bs)).
Proof.
  induction bs as [|b bs IH] using rev_ind.
  - cbn. lia.
  - rewrite be_decode_snoc, length_app. cbn [List.length].
    replace (8 * Z.of_nat (List.length bs + 1))
      with (8 * Z.of_nat (List.length bs) + 8) by lia.
    rewrite Z.pow_add_r by lia. change (2 ^ 8) with 256.
    pose proof (byte_to_Z_range b). nia.
Qed.

Lemma be_decode_encode (n : nat) (v : Z) :
  be_decode (be_encode n v) = v mod 2 ^ (8 * Z.of_nat n).
Proof.
  revert v. induction n as [|n IH]; intros v.
  - cbn. rewrite Z.mod_1_r. reflexivity.
  - rewrite be_encode_snoc, be_decode_snoc, IH, byte_to_of_Z.
    replace (8 * Z.of_nat (S n)) with (8 + 8 * Z.of_nat n) by lia.
    rewrite Z.pow_add_r by lia. change (2 ^ 8) with 256.
    rewrite Z.rem_mul_r by lia. lia.
Qed.

Lemma be_encode_decode (bs : bytes) :
  be_encode (List.length bs) (be_decode bs) = bs.
Proof.
  induction bs as [|b bs IH] using rev_ind.
  - reflexivity.
  - rewrite length_app. cbn [List.length]. rewrite Nat.add_1_r.
    rewrite be_encode_snoc, be_decode_snoc.
    pose proof (byte_to_Z_range b) as Hb.
    replace ((be_decode bs * 256 + byte_to_Z b) / 256) with (be_decode bs)
      by (apply Z.div_unique with (r := byte_to_Z b); lia).
    rewrite IH. f_equal. f_equal.
    rewrite <- byte_of_Z_mod.
    replace ((be_decode bs * 256 + byte_to_Z b) mod 256) with (byte_to_Z b)
      by (apply Z.mod_unique with (q := be_decode bs); lia).
    apply byte_of_to_Z.
Qed.

Lemma struct_pack_uint_ok (f : field) (n : nat) (v : Z) :
  0 <= v < 2 ^ (8 * Z.of_nat n) ->
  struct_pack_uint f n v = Ok (be_encode n v).
Proof.
  intros H. unfold struct_pack_uint.
  destruct (Z.leb_spec 0 v); [|lia].
  destruct (Z.ltb_spec v (2 ^ (8 * Z.of_nat n))); [|lia].
  reflexivity.
Qed.

Lemma struct_pack_uint_err (f : field) (n : nat) (v : Z) (e : exn) :
  struct_pack_uint f n v = Err e -> e = struct_error f.
Proof.
  unfold struct_pack_uint.
  destruct ((0 <=? v) && (v <? 2 ^ (8 * Z.of_nat n)))%bool; congruence.
Qed.

(** ** Hexadecimal strings *)

Section HexStrings.

Local Open Scope string_scope.

Lemma append_nil_r (s : string) : s ++ "" = s.
Proof.
  induction s as [|c s IH]; cbn; [|rewrite IH]; reflexivity.
Qed.

Lemma append_assoc (a b c : string) : (a ++ b) ++ c = a ++ (b ++ c).
Proof.
  induction a as [|x a IH]; cbn; [|rewrite IH]; reflexivity.
Qed.

Lemma length_append (a b : string) :
  String.length (a ++ b) = (String.length a + String.length b)%nat.
Proof.
  induction a as [|x a IH]; cbn; [|rewrite IH]; reflexivity.
Qed.

Lemma string_repeat_length (c : ascii) (n : nat) :
  String.length (string_repeat c n) = n.
Proof.
  induction n as [|n IH]; cbn; [|rewrite IH]; reflexivity.
Qed.

Lemma string_repeat_add (c : ascii) (a b : nat) :
  string_repeat c (a + b) = string_repeat c a ++ string_repeat c b.
Proof.
  induction a as [|a IH]; cbn; [|rewrite IH]; reflexivity.
Qed.

Lemma string_repeat_snoc (c : ascii) (n : nat) :
  string_repeat c n ++ String c "" = string_repeat c (S n).
Proof.
  induction n as [|n IH]; cbn in *; [|rewrite IH]; reflexivity.
Qed.

Lemma lower_append (a b : string) : lower (a ++ b) = lower a ++ lower b.
Proof.
  induction a as [|x a IH]; cbn; [|rewrite IH]; reflexivity.
Qed.

Lemma all_chars_append (P : ascii -> bool) (a b : string) :
  all_chars P (a ++ b) = (all_chars P a && all_chars P b)%bool.
Proof.
  induction a as [|x a IH]; cbn; [|rewrite IH, andb_assoc]; reflexivity.
Qed.

Lemma hex_fixed_length (k : nat) (n : Z) : String.length (hex_fixed k n) = k.
Proof.
  revert n. induction k as [|k IH]; intros n; cbn [hex_fixed].
  - reflexivity.
  - rewrite length_append, IH. cbn. lia.
Qed.

Lemma hex_fixed_0 (k : nat) : hex_fixed k 0 = string_repeat "0" k.
Proof.
  induction k as [|k IH].
  - reflexivity.
  - cbn [hex_fixed]. change (0 / 16) with 0. rewrite IH.
    change (String (hex_digit_upper (0 mod 16)) "") with (String "0" "").
    apply string_repeat_snoc.
Qed.

Lemma hex_digit_upper_lower (d : Z) :
  0 <= d < 16 -> is_lower_hex (lower_char (hex_digit_upper d)) = true.
Proof.
  intros H.
  assert (d = 0 \/ d = 1 \/ d = 2 \/ d = 3 \/ d = 4 \/ d = 5 \/ d = 6 \/ d = 7
          \/ d = 8 \/ d = 9 \/ d = 10 \/ d = 11 \/ d = 12 \/ d = 13 \/ d = 14
          \/ d = 15) as Hd by lia.
  repeat destruct Hd as [-> | Hd]; try reflexivity. subst d. reflexivity.
Qed.

Lemma hex_fixed_lower (k : nat) (n : Z) :
  all_chars is_lower_hex (lower (hex_fixed k n)) = true.
Proof.
  revert n. induction k as [|k IH]; intros n; cbn [hex_fixed].
  - reflexivity.
  - rewrite lower_append, all_chars_append, IH. cbn [lower all_chars andb].
    rewrite hex_digit_upper_lower; [reflexivity|].
    apply Z.mod_pos_bound. lia.
Qed.

(** The digits [hex_upper_aux] produces, padded with zeros to any width
    they fit in, are the fixed-width digits. *)
Lemma hex_upper_aux_spec (fuel : nat) :
  forall (n : Z) (acc : string),
    0 <= n < 16 ^ Z.of_nat fuel ->
    exists d,
      hex_upper_aux fuel n acc = d ++ acc /\
      (fuel = 0%nat \/ 1 <= String.length d)%nat /\
      forall k : nat,
        (1 <= k)%nat -> n < 16 ^ Z.of_nat k ->
        (String.length d <= k)%nat /\
        string_repeat "0" (k - String.length d) ++ d = hex_fixed k n.
Proof.
  induction fuel as [|fuel IH]; intros n acc Hn.
  - exists "". split; [reflexivity|]. split; [left; reflexivity|].
    intros k Hk Hnk. cbn in Hn. assert (n = 0) as -> by lia.
    split; [cbn; lia|]. cbn [String.length]. rewrite Nat.sub_0_r, append_nil_r.
    symmetry. apply hex_fixed_0.
  - cbn [hex_upper_aux].
    destruct (Z.eqb_spec (n / 16) 0) as [E|E].
    + exists (String (hex_digit_upper (n mod 16)) "").
      split; [reflexivity|]. split; [right; cbn; lia|].
      intros k Hk Hnk. split; [cbn; lia|].
      destruct k as [|k]; [lia|]. cbn [String.length hex_fixed].
      rewrite E, hex_fixed_0. replace (S k - 1)%nat with k by lia.
      reflexivity.
    + assert (Hq : 0 <= n / 16 < 16 ^ Z.of_nat fuel).
      { split; [apply Z.div_pos; lia|].
        apply Z.div_lt_upper_bound; [lia|].
        replace (16 * 16 ^ Z.of_nat fuel) with (16 ^ Z.of_nat (S fuel));
          [lia|].
        rewrite Nat2Z.inj_succ, Z.pow_succ_r by lia. reflexivity. }
      destruct (IH (n / 16) (String (hex_digit_upper (n mod 16)) acc) Hq)
        as (d & Hd & Hpos & Hpad).
      exists (d ++ String (hex_digit_upper (n mod 16)) "").
      split; [rewrite Hd, append_assoc; reflexivity|].
      split; [right; rewrite length_append; cbn; lia|].
      intros k Hk Hnk.
      assert (16 <= n).
      { destruct (Z_lt_le_dec n 16) as [Hlt|]; [|assumption].
        rewrite Z.div_small in E by lia. contradiction. }
      destruct k as [|[|k]]; [lia| cbn in Hnk; lia |].
      assert (Hqk : n / 16 < 16 ^ Z.of_nat (S k)).
      { apply Z.div_lt_upper_bound; [lia|].
        replace (16 * 16 ^ Z.of_nat (S k)) with (16 ^ Z.of_nat (S (S k)));
          [lia|].
        rewrite (Nat2Z.inj_succ (S k)), Z.pow_succ_r by lia. reflexivity. }
      destruct (Hpad (S k) ltac:(lia) Hqk) as [Hlen Heq].
      rewrite length_append. cbn [String.length]. split; [lia|].
      change (hex_fixed (S (S k)) n)
        with (hex_fixed (S k) (n / 16)
              ++ String (hex_digit_upper (n mod 16)) "").
      rewrite <- Heq, append_assoc.
      replace (S (S k) - (String.length d + 1))%nat
        with (S k - String.length d)%nat by lia.
      reflexivity.
Qed.

Lemma hex_upper_spec (n : Z) (k : nat) :
  0 <= n < 16 ^ Z.of_nat k -> (1 <= k)%nat ->
  (1 <= String.length (hex_upper n) <= k)%nat /\
  string_repeat "0" (k - String.length (hex_upper n)) ++ hex_upper n
  = hex_fixed k n.
Proof.
  intros Hn Hk. unfold hex_upper.
  assert (Hfuel : 0 <= n < 16 ^ Z.of_nat (S (Z.to_nat (Z.log2 n)))).
  { split; [lia|].
    rewrite Nat2Z.inj_succ, Z2Nat.id by apply Z.log2_nonneg.
    destruct (Z.eq_dec n 0) as [->|Hne].
    - cbn. lia.
    - pose proof (Z.log2_spec n ltac:(lia)) as [_ Hlt].
      eapply Z.lt_le_trans; [exact Hlt|].
      apply Z.pow_le_mono_l. lia. }
  destruct (hex_upper_aux_spec _ n "" Hfuel) as (d & Hd & Hpos & Hpad).
  rewrite Hd, append_nil_r.
  destruct (Hpad k Hk ltac:(lia)) as [Hlen Heq].
  split; [|exact Heq].
  destruct Hpos as [Hz|Hpos]; [discriminate Hz|]. lia.
Qed.

Lemma lower_length (s : string) : String.length (lower s) = String.length s.
Proof.
  induction s as [|c s IH]; cbn; [|rewrite IH]; reflexivity.
Qed.

Lemma hex_digit_upper_is_hex (d : Z) :
  0 <= d < 16 -> hex_value (hex_digit_upper d) = Some d.
Proof.
  intros H.
  assert (d = 0 \/ d = 1 \/ d = 2 \/ d = 3 \/ d = 4 \/ d = 5 \/ d = 6 \/ d = 7
          \/ d = 8 \/ d = 9 \/ d = 10 \/ d = 11 \/ d = 12 \/ d = 13 \/ d = 14
          \/ d = 15) as Hd by lia.
  repeat destruct Hd as [-> | Hd]; try reflexivity. subst d. reflexivity.
Qed.

Lemma hex_fixed_is_hex (k : nat) (n : Z) :
  all_chars is_hex (hex_fixed k n) = true.
Proof.
  revert n. induction k as [|k IH]; intros n; cbn [hex_fixed].
  - reflexivity.
  - rewrite all_chars_append, IH. cbn [all_chars andb]. unfold is_hex.
    rewrite hex_digit_upper_is_hex; [reflexivity|].
    apply Z.mod_pos_bound. lia.
Qed.

Lemma is_hex_not_sign (c : ascii) :
  is_hex c = true -> (Ascii.eqb c "+" || Ascii.eqb c "-")%bool = false.
Proof.
  intros H.
  destruct (Ascii.eqb_spec c "+") as [->|_]; [discriminate H|].
  destruct (Ascii.eqb_spec c "-") as [->|_]; [discriminate H|].
  reflexivity.
Qed.

Lemma zfill_digits (w : nat) (s : string) :
  all_chars is_hex s = true ->
  zfill w s = string_repeat "0" (w - String.length s) ++ s.
Proof.
  destruct s as [|c s]; intros H.
  - cbn. rewrite Nat.sub_0_r, append_nil_r. reflexivity.
  - cbn [all_chars] in H. apply andb_prop in H. destruct H as [Hc _].
    unfold zfill. rewrite (is_hex_not_sign c Hc). reflexivity.
Qed.

Lemma string_repeat_is_hex (n : nat) :
  all_chars is_hex (string_repeat "0" n) = true.
Proof.
  induction n as [|n IH]; [reflexivity|exact IH].
Qed.

(** For a title id in the uint64 range the getter writes its sixteen
    digits. *)
Lemma format_titleid_fixed (n : Z) :
  0 <= n < 2 ^ 64 ->
  lower (zfill 16 (format_08X n)) = lower (hex_fixed 16 n).
Proof.
  intros Hn. unfold format_08X.
  destruct (Z.ltb_spec n 0) as [|_]; [lia|].
  destruct (hex_upper_spec n 16 Hn ltac:(lia)) as [Hlen Heq].
  set (d := hex_upper n) in *.
  assert (Hd : all_chars is_hex d = true).
  { pose proof (hex_fixed_is_hex 16 n) as Hh.
    rewrite <- Heq, all_chars_append in Hh.
    apply andb_prop in Hh. exact (proj2 Hh). }
  unfold lpad0. rewrite zfill_digits
    by (rewrite all_chars_append, string_repeat_is_hex, Hd; reflexivity).
  rewrite length_append, string_repeat_length, <- append_assoc.
  rewrite <- string_repeat_add, <- Heq.
  replace (16 - (8 - String.length d + String.length d)
           + (8 - String.length d))%nat
    with (16 - String.length d)%nat by lia.
  reflexivity.
Qed.

Lemma hex_fixed_split (a b : nat) (n : Z) :
  hex_fixed (a + b) n = hex_fixed a (n / 16 ^ Z.of_nat b) ++ hex_fixed b n.
Proof.
  revert n. induction b as [|b IH]; intros n.
  - rewrite Nat.add_0_r. cbn [hex_fixed Z.of_nat]. rewrite Z.pow_0_r, Z.div_1_r.
    symmetry. apply append_nil_r.
  - rewrite Nat.add_succ_r. cbn [hex_fixed]. rewrite IH, append_assoc.
    rewrite Z.div_div by lia.
    rewrite Nat2Z.inj_succ, Z.pow_succ_r by lia. reflexivity.
Qed.

Lemma prefix_append (p a b : string) :
  String.length p = String.length a ->
  String.prefix p (a ++ b) = String.eqb p a.
Proof.
  revert a. induction p as [|x p IH]; intros [|y a] H; try discriminate H.
  - cbn. destruct b; reflexivity.
  - cbn. destruct (ascii_dec x y) as [->|Hne].
    + rewrite Ascii.eqb_refl. apply IH. cbn in H. lia.
    + destruct (Ascii.eqb_spec x y); [contradiction|reflexivity].
Qed.

Lemma lower_digit_value (d : Z) :
  0 <= d < 16 -> hex_value (lower_char (hex_digit_upper d)) = Some d.
Proof.
  intros H.
  assert (d = 0 \/ d = 1 \/ d = 2 \/ d = 3 \/ d = 4 \/ d = 5 \/ d = 6 \/ d = 7
          \/ d = 8 \/ d = 9 \/ d = 10 \/ d = 11 \/ d = 12 \/ d = 13 \/ d = 14
          \/ d = 15) as Hd by lia.
  repeat destruct Hd as [-> | Hd]; try reflexivity. subst d. reflexivity.
Qed.

Lemma lower_digit_inv (d : Z) (c : ascii) (v : Z) :
  0 <= d < 16 -> hex_value c = Some v ->
  lower_char (hex_digit_upper d) = c -> d = v.
Proof.
  intros Hd Hv <-. rewrite (lower_digit_value d Hd) in Hv. congruence.
Qed.

(** The five leading digits are 00030 exactly for the title ids from
    0x0003000000000000 to 0x00030fffffffffff. *)
Lemma dsi_prefix_digits (n : Z) :
  0 <= n < 2 ^ 64 ->
  startswith (lower (hex_fixed 16 n)) "00030" = true <-> n / 2 ^ 44 = 48.
Proof.
  intros Hn. unfold startswith.
  change 16%nat with (5 + 11)%nat. rewrite hex_fixed_split, lower_append.
  rewrite prefix_append
    by (rewrite lower_length, hex_fixed_length; reflexivity).
  change (16 ^ Z.of_nat 11) with (2 ^ 44).
  set (m := n / 2 ^ 44).
  assert (Hm : 0 <= m < 1048576).
  { unfold m. split; [apply Z.div_pos; lia|].
    apply Z.div_lt_upper_bound; lia. }
  rewrite String.eqb_eq. split.
  - cbn [hex_fixed lower append]. intros H.
    injection H as H4 H3 H2 H1 H0.
    symmetry in H0, H1, H2, H3, H4.
    repeat match goal with
           | H : lower_char (hex_digit_upper ?d) = ?c |- _ =>
               let v := eval cbv in (hex_value c) in
               match v with
               | Some ?x =>
                   apply (lower_digit_inv d c x) in H;
                   [| apply Z.mod_pos_bound; lia | reflexivity]
               end
           end.
    clearbody m. clear Hn. Z.div_mod_to_equations. lia.
  - intros ->. reflexivity.
Qed.

Lemma is_hex_plain (c : ascii) :
  is_hex c = true ->
  is_space c = false /\ Ascii.eqb c "-" = false /\ Ascii.eqb c "+" = false /\
  Ascii.eqb c "_" = false /\ Ascii.eqb c "x" = false /\ Ascii.eqb c "X" = false.
Proof.
  destruct c as [[] [] [] [] [] [] [] []]; cbn; intros H;
    try discriminate H; repeat split.
Qed.

Lemma hex_value_digit (c : ascii) (d : Z) :
  hex_value c = Some d ->
  0 <= d < 16 /\ lower_char (hex_digit_upper d) = lower_char c.
Proof.
  destruct c as [[] [] [] [] [] [] [] []]; cbn; intros [= <-];
    split; first [lia | reflexivity].
Qed.

Lemma scan_hex_digits (s : string) :
  forall (acc : Z) (n : nat),
    all_chars is_hex s = true ->
    scan_hex s false acc n
    = Some (hex_val acc s, (n + String.length s)%nat, "").
Proof.
  induction s as [|c s IH]; intros acc n H.
  - cbn. rewrite Nat.add_0_r. reflexivity.
  - cbn [all_chars] in H. apply andb_prop in H. destruct H as [Hc Hs].
    destruct (is_hex_plain c Hc) as (_ & _ & _ & Hus & _).
    cbn [scan_hex hex_val String.length]. rewrite Hus.
    unfold is_hex in Hc. destruct (hex_value c) as [d|]; [|discriminate Hc].
    rewrite (IH _ _ Hs). rewrite Nat.add_succ_r. reflexivity.
Qed.

(** On a non-empty string of hexadecimal digits [int(s, 16)] is the
    number the digits write. *)
Lemma int_base16_digits (s : string) :
  all_chars is_hex s = true -> s <> "" ->
  int_base16 s = Ok (hex_val 0 s).
Proof.
  intros H Hne. destruct s as [|c s]; [contradiction|].
  pose proof H as Hall.
  cbn [all_chars] in H. apply andb_prop in H. destruct H as [Hc Hs].
  destruct (is_hex_plain c Hc) as (Hsp & Hm & Hp & Hus & _).
  unfold int_base16. cbn [lstrip]. rewrite Hsp, Hm, Hp.
  assert (Hs3 : match String c s with
                | String c0 (String c1 r) =>
                    if (Ascii.eqb c0 "0"
                        && (Ascii.eqb c1 "x" || Ascii.eqb c1 "X"))%bool
                    then match r with
                         | String c2 r' => if Ascii.eqb c2 "_" then r' else r
                         | EmptyString => r
                         end
                    else String c s
                | _ => String c s
                end = String c s).
  { destruct s as [|c1 r]; [reflexivity|].
    cbn [all_chars] in Hs. apply andb_prop in Hs. destruct Hs as [Hc1 _].
    destruct (is_hex_plain c1 Hc1) as (_ & _ & _ & _ & Hx & HX).
    rewrite Hx, HX, andb_false_r. reflexivity. }
  rewrite Hs3, Hus, (scan_hex_digits _ 0 0%nat Hall).
  reflexivity.
Qed.

Lemma hex_val_range (s : string) :
  forall acc : Z,
    0 <= acc -> all_chars is_hex s = true ->
    acc * 16 ^ Z.of_nat (String.length s) <= hex_val acc s
    < (acc + 1) * 16 ^ Z.of_nat (String.length s).
Proof.
  induction s as [|c s IH]; intros acc Hacc H.
  - cbn. lia.
  - cbn [all_chars] in H. apply andb_prop in H. destruct H as [Hc Hs].
    cbn [hex_val String.length]. unfold is_hex in Hc.
    destruct (hex_value c) as [d|] eqn:Ed; [|discriminate Hc].
    destruct (hex_value_digit c d Ed) as [Hd _].
    specialize (IH (acc * 16 + d) ltac:(lia) Hs).
    rewrite Nat2Z.inj_succ, Z.pow_succ_r by lia.
    assert (0 < 16 ^ Z.of_nat (String.length s))
      by (apply Z.pow_pos_nonneg; lia).
    nia.
Qed.

Lemma hex_val_fixed (s : string) :
  forall (acc : Z) (j : nat),
    0 <= acc -> all_chars is_hex s = true ->
    lower (hex_fixed (j + String.length s) (hex_val acc s))
    = lower (hex_fixed j acc) ++ lower s.
Proof.
  induction s as [|c s IH]; intros acc j Hacc H.
  - cbn [String.length hex_val lower]. rewrite Nat.add_0_r, append_nil_r.
    reflexivity.
  - cbn [all_chars] in H. apply andb_prop in H. destruct H as [Hc Hs].
    cbn [hex_val String.length lower]. unfold is_hex in Hc.
    destruct (hex_value c) as [d|] eqn:Ed; [|discriminate Hc].
    destruct (hex_value_digit c d Ed) as [Hd Hlow].
    rewrite Nat.add_succ_r, <- Nat.add_succ_l.
    rewrite (IH (acc * 16 + d) (S j) ltac:(lia) Hs).
    cbn [hex_fixed].
    replace ((acc * 16 + d) / 16) with acc
      by (apply Z.div_unique with (r := d); lia).
    replace ((acc * 16 + d) mod 16) with d
      by (apply Z.mod_unique with (q := acc); lia).
    rewrite lower_append, append_assoc. cbn [lower append].
    rewrite Hlow. reflexivity.
Qed.

End HexStrings.

(** ** Stream steps *)

Lemma pbind_ok {A B} (p : parser A) (k : A -> parser B) s a s' :
  p s = Ok (a, s') -> pbind p k s = k a s'.
Proof.
  intros H. unfold pbind. rewrite H. reflexivity.
Qed.

Lemma pbind_inv {A B} (p : parser A) (k : A -> parser B) s r :
  pbind p k s = Ok r -> exists a s', p s = Ok (a, s') /\ k a s' = Ok r.
Proof.
  unfold pbind. destruct (p s) as [[a s']|e]; [|discriminate].
  intros H. exists a, s'. split; [reflexivity|exact H].
Qed.

Lemma firstn_exact {A} (n : nat) (x s : list A) :
  List.length x = n -> firstn n (x ++ s) = x.
Proof.
  intros <-. rewrite firstn_app, firstn_all, Nat.sub_diag, firstn_O.
  apply app_nil_r.
Qed.

Lemma skipn_exact {A} (n : nat) (x s : list A) :
  List.length x = n -> skipn n (x ++ s) = s.
Proof.
  intros <-. rewrite skipn_app, skipn_all, Nat.sub_diag, skipn_O.
  reflexivity.
Qed.

Lemma f_read_app (n : nat) (x s : bytes) :
  List.length x = n -> f_read n (x ++ s) = Ok (x, s).
Proof.
  intros H. unfold f_read.
  rewrite firstn_exact, skipn_exact by exact H. reflexivity.
Qed.

(** A read is short only at the end of the stream. *)
Lemma f_read_inv (n : nat) (s x s' : bytes) :
  f_read n s = Ok (x, s') ->
  s = x ++ s' /\ (List.length x = n \/ List.length s' = 0%nat).
Proof.
  unfold f_read. intros [= <- <-]. split.
  - symmetry. apply firstn_skipn.
  - rewrite length_firstn, length_skipn. lia.
Qed.

Lemma unpack_uint_app (f : field) (n : nat) (v : Z) (s : bytes) :
  0 <= v < 2 ^ (8 * Z.of_nat n) ->
  unpack_uint f n (be_encode n v ++ s) = Ok (v, s).
Proof.
  intros Hv. unfold unpack_uint, struct_unpack_uint.
  pose proof (be_encode_length n v) as Hl.
  rewrite firstn_exact, skipn_exact by exact Hl.
  rewrite Hl, Nat.eqb_refl, be_decode_encode, Z.mod_small by lia.
  reflexivity.
Qed.

Lemma unpack_uint_inv (f : field) (n : nat) (s : bytes) (v : Z) (s' : bytes) :
  unpack_uint f n s = Ok (v, s') ->
  s = be_encode n v ++ s' /\ 0 <= v < 2 ^ (8 * Z.of_nat n).
Proof.
  unfold unpack_uint, struct_unpack_uint.
  destruct (Nat.eqb_spec (List.length (firstn n s)) n) as [E|E];
    [|discriminate].
  intros [= <- <-]. split.
  - rewrite <- E at 1. rewrite be_encode_decode. symmetry. apply firstn_skipn.
  - pose proof (be_decode_range (firstn n s)) as Hr.
    rewrite E in Hr. exact Hr.
Qed.

Lemma unpack_bool_app (f : field) (v : bool) (s : bytes) :
  unpack_bool f (struct_pack_bool v ++ s) = Ok (v, s).
Proof.
  destruct v; reflexivity.
Qed.

Lemma unpack_bool_inv (f : field) (s : bytes) (v : bool) (s' : bytes) :
  unpack_bool f s = Ok (v, s') ->
  exists x, s = x :: s' /\ v = negb (Byte.eqb x x00).
Proof.
  unfold unpack_bool. destruct s as [|x s0]; [discriminate|].
  cbn. intros [= <- <-]. exists x. split; reflexivity.
Qed.

Lemma sub_parse_inv {A} (p : bytes -> option (A * bytes)) (e : exn) s a s' :
  sub_parse p e s = Ok (a, s') -> p s = Some (a, s').
Proof.
  unfold sub_parse. destruct (p s); [|discriminate]. now intros [= ->].
Qed.

Lemma sub_parse_ok {A} (p : bytes -> option (A * bytes)) (e : exn) s a s' :
  p s = Some (a, s') -> sub_parse p e s = Ok (a, s').
Proof.
  unfold sub_parse. now intros ->.
Qed.

Lemma struct_pack_bool_canonical (x : byte) :
  x = x00 \/ x = x01 -> struct_pack_bool (negb (Byte.eqb x x00)) = [x].
Proof.
  intros [-> | ->]; reflexivity.
Qed.

(** ** The codec *)

(** From the equations [s = x ++ s'] that inverting [parse_stream]
    leaves: a stream from which an integer was unpacked further on is
    not empty, so the reads before that point were not short. *)
Ltac nonempty_streams :=
  repeat match goal with
         | Hs : ?s = be_encode ?n _ ++ _ |- _ =>
             lazymatch goal with
             | _ : (0 < List.length s)%nat |- _ => fail
             | _ =>
                 assert (0 < List.length s)%nat
                   by (rewrite Hs, length_app, be_encode_length; clear; lia)
             end
         | Hs : ?s = _ :: _ |- _ =>
             lazymatch goal with
             | _ : (0 < List.length s)%nat |- _ => fail
             | _ =>
                 assert (0 < List.length s)%nat
                   by (rewrite Hs; cbn [List.length]; clear; lia)
             end
         | Hs : ?s = _ ++ ?s', P : (0 < List.length ?s')%nat |- _ =>
             lazymatch goal with
             | _ : (0 < List.length s)%nat |- _ => fail
             | _ =>
                 assert (0 < List.length s)%nat
                   by (rewrite Hs, length_app; clear - P; lia)
             end
         end.

Ltac full_reads :=
  nonempty_streams;
  repeat match goal with
         | D : List.length _ = _ \/ List.length ?s' = 0%nat,
           P : (0 < List.length ?s')%nat |- _ =>
             destruct D as [D|D]; [|exfalso; clear - D P; lia]
         end.

Section Codec.

Context `{W : WADGEN}.

Lemma fold_left_pack {A} (f : A -> bytes) (l : list A) (p : bytes) :
  fold_left (fun p x => p ++ f x) l p = p ++ List.concat (map f l).
Proof.
  revert p. induction l as [|x l IH]; intros p; cbn.
  - symmetry. apply app_nil_r.
  - rewrite IH, <- app_assoc. reflexivity.
Qed.

Lemma pack_ok (t : Ticket) (sg ce : bool) :
  packable t ->
  pack t sg ce =
  Ok ((if sg then Signature_pack (signature t) else [])
      ++ issuer t ++ ecdhdata t ++ unused1 t ++ titlekey t ++ unknown1 t
      ++ ticketid t
      ++ be_encode 4 (consoleid t)
      ++ be_encode 8 (titleid t)
      ++ unknown2 t
      ++ be_encode 2 (titleversion t)
      ++ be_encode 4 (permitted_titles_mask t)
      ++ be_encode 4 (permit_mask t)
      ++ struct_pack_bool (export_allowed t)
      ++ be_encode 1 (ckeyindex t)
      ++ unknown3 t ++ content_access_permissions t
      ++ be_encode 2 (padding t)
      ++ limits t
      ++ (if ce then List.concat (map Certificate_pack (certificates t))
          else [])).
Proof.
  intros (H1 & H2 & H3 & H4 & H5 & H6 & H7). unfold pack.
  rewrite (struct_pack_uint_ok F_consoleid 4) by exact H1.
  rewrite (struct_pack_uint_ok F_titleid 8) by exact H2.
  rewrite (struct_pack_uint_ok F_titleversion 2) by exact H3.
  rewrite (struct_pack_uint_ok F_permitted_titles_mask 4) by exact H4.
  rewrite (struct_pack_uint_ok F_permit_mask 4) by exact H5.
  rewrite (struct_pack_uint_ok F_ckeyindex 1) by exact H6.
  rewrite (struct_pack_uint_ok F_padding 2) by exact H7.
  cbn [bind]. f_equal.
  destruct ce; [rewrite fold_left_pack|rewrite app_nil_r];
    destruct sg; cbn [app]; repeat rewrite <- app_assoc; reflexivity.
Qed.

Lemma pack_err (t : Ticket) (sg ce : bool) (e : exn) :
  pack t sg ce = Err e -> exists f, e = struct_error f.
Proof.
  unfold pack, bind.
  repeat match goal with
         | |- context [struct_pack_uint ?f ?n ?v] =>
             let E := fresh "E" in
             destruct (struct_pack_uint f n v) eqn:E;
             [ clear E
             | apply struct_pack_uint_err in E; intros [= <-]; eexists;
               exact E ]
         end.
  discriminate.
Qed.

Lemma parse_stream_pack (t : Ticket) (rest : bytes) :
  valid t ->
  exists b, pack t true true = Ok b /\ parse_stream (b ++ rest) = Ok (t, rest).
Proof.
  intros (Hp & Hs & Hsig & Hcert).
  rewrite (pack_ok t true true Hp). eexists. split; [reflexivity|].
  destruct Hp as (H1 & H2 & H3 & H4 & H5 & H6 & H7).
  destruct Hs as (L1 & L2 & L3 & L4 & L5 & L6 & L7 & L8 & L9 & L10 & L11).
  destruct t as [sg iss ecdh un1 tkey unk1 tikid cid tid unk2 tver ptm pm ex
                   cki unk3 cap pad lim certs].
  cbn [signature issuer ecdhdata unused1 titlekey unknown1 ticketid consoleid
       titleid unknown2 titleversion permitted_titles_mask permit_mask
       export_allowed ckeyindex unknown3 content_access_permissions padding
       limits certificates] in *.
  destruct certs as [|c0 [|c1 [|c2 certs]]]; try discriminate L11.
  inversion Hcert as [|? ? Hc0 Hcert']; subst.
  inversion Hcert' as [|? ? Hc1 _]; subst.
  cbn [map List.concat].
  repeat rewrite <- app_assoc.
  unfold parse_stream.
  erewrite pbind_ok by (apply sub_parse_ok, Hsig).
  repeat first
    [ erewrite pbind_ok by (apply f_read_app; eassumption)
    | erewrite pbind_ok by (apply unpack_uint_app; eassumption)
    | erewrite pbind_ok by (apply unpack_bool_app) ].
  erewrite pbind_ok by (apply sub_parse_ok, Hc0).
  erewrite pbind_ok by (apply sub_parse_ok, Hc1).
  reflexivity.
Qed.

Lemma pack_parse_stream (b : bytes) (t : Ticket) (rest : bytes) :
  codecs_pack_parse ->
  parse_stream b = Ok (t, rest) ->
  raw_export_allowed b = Some x00 \/ raw_export_allowed b = Some x01 ->
  exists b', pack t true true = Ok b' /\ b = b' ++ rest.
Proof.
  intros [Hsig Hcert] Hparse Hraw.
  unfold parse_stream in Hparse.
  repeat match type of Hparse with
         | pbind _ _ _ = Ok _ =>
             let a := fresh "a" in
             let s := fresh "s" in
             let Hs := fresh "Hs" in
             apply pbind_inv in Hparse; destruct Hparse as (a & s & Hs & Hparse)
         end.
  injection Hparse as <- <-.
  repeat match goal with
         | H : sub_parse _ _ _ = Ok _ |- _ => apply sub_parse_inv in H
         | H : f_read _ _ = Ok _ |- _ =>
             apply f_read_inv in H; destruct H as [H ?]
         | H : unpack_uint _ _ _ = Ok _ |- _ =>
             apply unpack_uint_inv in H; destruct H as [H ?]
         | H : unpack_bool _ _ = Ok _ |- _ =>
             apply unpack_bool_inv in H; destruct H as (? & H & ?)
         end.
  (* the export byte is the one at offset 176 *)
  unfold raw_export_allowed in Hraw.
  match goal with
  | H : Signature_parse _ = Some _ |- _ => rewrite H in Hraw; apply Hsig in H
  end.
  repeat match goal with
         | H : Certificate_parse _ = Some _ |- _ => apply Hcert in H
         end.
  assert (Hx : x = x00 \/ x = x01).
  { assert (Hn : nth_error s 176 = Some x).
    { full_reads.
      repeat match goal with
             | H : _ <= _ < _ |- _ => clear H
             | H : _ \/ _ |- _ => clear H
             | H : (0 < _)%nat |- _ => clear H
             end.
      subst s s0 s1 s2 s3 s4 s5 s6 s7 s8 s9 s10 s11.
      repeat rewrite app_assoc.
      rewrite nth_error_app2;
        repeat rewrite length_app; rewrite ?be_encode_length; [|lia].
      match goal with
      | |- nth_error _ ?k = _ => replace k with 0%nat by lia
      end.
      reflexivity. }
    rewrite Hn in Hraw. destruct Hraw as [[= ->] | [= ->]]; auto. }
  rewrite pack_ok by (repeat split; cbn; lia).
  eexists. split; [reflexivity|].
  cbn [signature issuer ecdhdata unused1 titlekey unknown1 ticketid consoleid
       titleid unknown2 titleversion permitted_titles_mask permit_mask
       export_allowed ckeyindex unknown3 content_access_permissions padding
       limits certificates map List.concat].
  subst a12. rewrite struct_pack_bool_canonical by exact Hx.
  subst. repeat rewrite <- app_assoc. reflexivity.
Qed.

End Codec.

(** ** The sample instance satisfies the codec laws *)

Lemma toy_pack_parse : @codecs_pack_parse Sample.toy.
Proof.
  split; intros [|x r] y rest; cbn; intros [= <- <-]; reflexivity.
Qed.

Lemma xor_bytes_length (a b : bytes) :
  List.length (Sample.xor_bytes a b) = List.length a.
Proof.
  revert b. induction a as [|x a IH]; intros b; cbn; [|rewrite IH];
    reflexivity.
Qed.

Lemma sample_ticket_valid : valid Sample.ticket.
Proof.
  split; [|split; [|split]].
  - repeat split; cbn; lia.
  - repeat split.
  - intros rest. reflexivity.
  - repeat constructor.
Qed.

(** ** Round trip *)

(** C1 (amended).  Parsing what [pack] writes for a valid ticket
    (signature and certificates included) gives the ticket back, every
    field and the [limits] blob included; a ticket is valid when its
    byte fields have the widths of the layout, its integers fit their
    formats and its signature and two certificates are read back by
    their own parsers.  In the other direction, with sub-block parsers
    that consume what [pack] writes back, packing a freshly parsed
    ticket gives the input back up to the bytes left in the stream
    after the second certificate, provided the input's export flag byte
    is 0x00 or 0x01 (any other non-zero byte is read as [True] and
    written back as 0x01). *)
Theorem ticket_codec_roundtrip `{W : WADGEN} :
  (forall t, valid t ->
     exists b, pack t true true = Ok b /\ parse b = Ok t) /\
  (codecs_pack_parse ->
   forall b t rest,
     parse_stream b = Ok (t, rest) ->
     raw_export_allowed b = Some x00 \/ raw_export_allowed b = Some x01 ->
     exists b', pack t true true = Ok b' /\ b = b' ++ rest).
Proof.
  split.
  - intros t Ht.
    destruct (parse_stream_pack t [] Ht) as (b & Hb & Hs).
    exists b. split; [exact Hb|].
    unfold parse. rewrite app_nil_r in Hs. rewrite Hs. reflexivity.
  - intros Hpk b t rest Hs Hraw.
    exact (pack_parse_stream b t rest Hpk Hs Hraw).
Qed.

Lemma ticket_codec_roundtrip_witness :
  (exists b, pack Sample.ticket true true = Ok b /\ parse b = Ok Sample.ticket)
  /\ (exists b', pack Sample.ticket true true = Ok b'
                 /\ Sample.packed = b' ++ []).
Proof.
  destruct (@ticket_codec_roundtrip Sample.toy) as [H1 H2].
  split.
  - apply H1. exact sample_ticket_valid.
  - apply (H2 toy_pack_parse Sample.packed Sample.ticket []).
    + reflexivity.
    + right. reflexivity.
Defined.

(** C1 (counterexample to the second direction).  An input whose export
    flag byte is 0x02 parses, and packing the parsed ticket writes 0x01
    there. *)
Lemma pack_parse_not_identity :
  exists t,
    @parse Sample.toy Sample.noncanonical = Ok t /\
    pack t true true <> Ok Sample.noncanonical.
Proof.
  exists Sample.ticket. split.
  - reflexivity.
  - intros H. vm_compute in H. discriminate H.
Qed.

(** ** Truncated input *)

Lemma pbind_f_read {B} (n : nat) (k : bytes -> parser B) (s : bytes) :
  pbind (f_read n) k s = k (firstn n s) (skipn n s).
Proof.
  reflexivity.
Qed.

Lemma pbind_unpack_uint {B} (f : field) (n : nat) (k : Z -> parser B)
      (s : bytes) :
  pbind (unpack_uint f n) k s =
  if (n <=? List.length s)%nat
  then k (be_decode (firstn n s)) (skipn n s)
  else Err (struct_error f).
Proof.
  unfold pbind, unpack_uint, struct_unpack_uint. rewrite length_firstn.
  destruct (Nat.leb_spec n (List.length s)).
  - rewrite Nat.min_l by lia. rewrite Nat.eqb_refl. reflexivity.
  - destruct (Nat.eqb_spec (Nat.min n (List.length s)) n); [lia|reflexivity].
Qed.

Lemma pbind_unpack_bool {B} (f : field) (k : bool -> parser B) (s : bytes) :
  pbind (unpack_bool f) k s =
  if (1 <=? List.length s)%nat
  then k (negb (Byte.eqb (hd x00 s) x00)) (skipn 1 s)
  else Err (struct_error f).
Proof.
  destruct s as [|x s]; reflexivity.
Qed.

Ltac run_parser :=
  repeat (rewrite ?pbind_f_read, ?pbind_unpack_uint, ?pbind_unpack_bool;
          cbv beta);
  repeat rewrite length_skipn.

Ltac split_leb :=
  repeat match goal with
         | |- context [if (?a <=? ?b)%nat then _ else _] =>
             destruct (Nat.leb_spec a b); try lia
         end.

Ltac split_ltb :=
  repeat match goal with
         | |- context [if (?a <? ?b)%nat then _ else _] =>
             destruct (Nat.ltb_spec a b); try lia
         end.

Section Truncated.

Context `{W : WADGEN}.

Lemma parse_short_record (b : bytes) (sg : Signature) (r : bytes) :
  Signature_parse b = Some (sg, r) ->
  (List.length r < 292)%nat ->
  parse b = Err (struct_error (first_short_unpack (List.length r))).
Proof.
  intros Hsig Hlen. unfold parse, parse_stream.
  rewrite (pbind_ok _ _ _ _ _ (sub_parse_ok _ SignatureError _ _ _ Hsig)).
  run_parser. unfold first_short_unpack.
  split_leb; split_ltb; reflexivity.
Qed.

Lemma parse_short_limits (b : bytes) (sg : Signature) (r : bytes) :
  Signature_parse b = Some (sg, r) ->
  Certificate_parse [] = None ->
  (292 <= List.length r < 356)%nat ->
  parse b = Err CertificateError.
Proof.
  intros Hsig Hcert Hlen. unfold parse, parse_stream.
  rewrite (pbind_ok _ _ _ _ _ (sub_parse_ok _ SignatureError _ _ _ Hsig)).
  run_parser. split_leb.
  match goal with
  | |- context [pbind (sub_parse Certificate_parse CertificateError) _ ?s] =>
      replace s with (@nil byte)
        by (symmetry; apply length_zero_iff_nil;
            repeat rewrite length_skipn; lia)
  end.
  unfold pbind at 1. unfold sub_parse at 1. rewrite Hcert. reflexivity.
Qed.

End Truncated.

(** C7 (amended).  A record (the bytes after the signature)
    shorter than the 356 bytes of the layout does not parse.  With fewer
    than 292 bytes the failure is the [struct.error] of the first
    integer field that cannot be unpacked in full; the byte fields
    before it are read short without failing.  When only [limits] is cut
    short the failure is left to the certificate parser, which is
    handed an empty stream. *)
Theorem parse_truncated_record `{W : WADGEN}
        (b : bytes) (sg : Signature) (r : bytes) :
  Signature_parse b = Some (sg, r) ->
  ((List.length r < 292)%nat ->
   parse b = Err (struct_error (first_short_unpack (List.length r)))) /\
  ((292 <= List.length r < 356)%nat ->
   Certificate_parse [] = None ->
   parse b = Err CertificateError).
Proof.
  intros Hsig. split.
  - intros Hlen. exact (parse_short_record b sg r Hsig Hlen).
  - intros Hlen Hcert. exact (parse_short_limits b sg r Hsig Hcert Hlen).
Qed.

Lemma parse_truncated_record_witness :
  @parse Sample.toy Sample.truncated = Err (struct_error F_consoleid) /\
  @parse Sample.toy Sample.short_limits = Err CertificateError.
Proof.
  split.
  - apply (proj1 (@parse_truncated_record Sample.toy Sample.truncated xaa
                    (zeros 10) eq_refl)).
    cbn. lia.
  - apply (proj2 (@parse_truncated_record Sample.toy Sample.short_limits xaa
                    (zeros 300) eq_refl)).
    + cbn. lia.
    + reflexivity.
Defined.

(** C7 (counterexample).  With ten bytes of record the first field that
    is short is [issuer], yet [parse] reads on and raises at
    [consoleid]. *)
Lemma parse_fails_later_than_first_short_field :
  @Signature_parse Sample.toy Sample.truncated = Some (xaa, zeros 10) /\
  first_short_field (List.length (zeros 10)) = L_issuer /\
  @parse Sample.toy Sample.truncated = Err (struct_error F_consoleid) /\
  L_uint F_consoleid <> first_short_field (List.length (zeros 10)).
Proof.
  repeat split. discriminate.
Qed.

(** ** Initialization vector *)

Lemma be_encode_8 (v : Z) : be_encode 8 v = bigEndian64 v.
Proof.
  unfold bigEndian64. cbn [be_encode map].
  rewrite !byte_of_Z_mod, !Z.shiftr_div_pow2 by lia.
  reflexivity.
Qed.

(** C6.  The initialization vector is the 8-byte big-endian title id
    followed by 8 zero bytes. *)
Theorem get_iv_spec `{W : WADGEN} (t : Ticket) :
  0 <= titleid t < 2 ^ 64 ->
  get_iv t = Ok (bigEndian64 (titleid t) ++ zeros 8) /\
  be_decode (bigEndian64 (titleid t)) = titleid t.
Proof.
  intros H. split.
  - unfold get_iv. rewrite (struct_pack_uint_ok F_iv 8) by exact H.
    cbn [bind]. rewrite be_encode_8. reflexivity.
  - rewrite <- be_encode_8, be_decode_encode. apply Z.mod_small. exact H.
Qed.

Lemma get_iv_spec_witness :
  get_iv Sample.ticket
  = Ok ([x00; x01; x00; x02; x48; x41; x43; x41] ++ zeros 8) /\
  be_decode (bigEndian64 (titleid Sample.ticket)) = 281484778881857.
Proof.
  apply (@get_iv_spec Sample.toy Sample.ticket). cbn. lia.
Defined.

(** ** Title id strings *)

Section TitleId.

Context `{W : WADGEN}.

(** For a title id in the uint64 range the getter yields sixteen
    lower-case hexadecimal characters. *)
Lemma get_titleid_shape (t : Ticket) :
  0 <= titleid t < 2 ^ 64 ->
  get_titleid t = lower (hex_fixed 16 (titleid t)) /\
  String.length (get_titleid t) = 16%nat /\
  all_chars is_lower_hex (get_titleid t) = true.
Proof.
  intros H. unfold get_titleid. rewrite (format_titleid_fixed _ H).
  split; [reflexivity|]. split.
  - rewrite lower_length. apply hex_fixed_length.
  - apply hex_fixed_lower.
Qed.

(** The DSi prefix, read on the number. *)
Lemma dsi_prefix_numeric (t : Ticket) :
  0 <= titleid t < 2 ^ 64 ->
  startswith (get_titleid t) "00030" = true <-> titleid t / 2 ^ 44 = 48.
Proof.
  intros H. destruct (get_titleid_shape t H) as [-> _].
  exact (dsi_prefix_digits _ H).
Qed.

(** What the setter is meant for: sixteen hexadecimal digits, in either
    case, are accepted and read back in lower case. *)
Lemma set_titleid_hex16 (t : Ticket) (tid : string) :
  all_chars is_hex tid = true ->
  String.length tid = 16%nat ->
  set_titleid t tid = Ok (with_titleid t (hex_val 0 tid)) /\
  0 <= hex_val 0 tid < 2 ^ 64 /\
  get_titleid (with_titleid t (hex_val 0 tid)) = lower tid.
Proof.
  intros Hhex Hlen.
  assert (Hr : 0 <= hex_val 0 tid < 2 ^ 64).
  { pose proof (hex_val_range tid 0 ltac:(lia) Hhex) as Hr.
    rewrite Hlen in Hr. change (16 ^ Z.of_nat 16) with (2 ^ 64) in Hr. lia. }
  split; [|split; [exact Hr|]].
  - unfold set_titleid. rewrite Hlen. cbn [Nat.eqb negb].
    rewrite int_base16_digits; [reflexivity|exact Hhex|].
    intros ->. discriminate Hlen.
  - destruct (get_titleid_shape (with_titleid t (hex_val 0 tid)) Hr) as [-> _].
    cbn [titleid with_titleid].
    pose proof (hex_val_fixed tid 0 0%nat ltac:(lia) Hhex) as Hf.
    rewrite Hlen in Hf. exact Hf.
Qed.

Lemma set_titleid_wrong_length (t : Ticket) (tid : string) :
  String.length tid <> 16%nat ->
  set_titleid t tid = Err (ValueError "Title ID must be 16 characters long.").
Proof.
  intros H. unfold set_titleid.
  destruct (Nat.eqb_spec (String.length tid) 16); [contradiction|reflexivity].
Qed.

End TitleId.

(** ** Key resolution *)

Lemma py_index_out_of_range {A} (l : list A) (i : Z) :
  i < - Z.of_nat (List.length l) \/ Z.of_nat (List.length l) <= i ->
  py_index l i = None.
Proof.
  intros H. unfold py_index.
  destruct (Z.leb_spec 0 i), (Z.ltb_spec i (Z.of_nat (List.length l)));
    cbn [andb]; try lia;
    destruct (Z.leb_spec (- Z.of_nat (List.length l)) i), (Z.ltb_spec i 0);
    cbn [andb]; try lia; reflexivity.
Qed.

(** C4.  A title id that starts with 00030 resolves to the DSi key,
    whatever the key index, and nothing is printed. *)
Theorem dsi_prefix_key `{W : WADGEN} (t : Ticket) :
  startswith (get_titleid t) "00030" = true ->
  get_decryption_key t = ([], Ok DSI_KEY) /\
  forall i, get_decryption_key (with_ckeyindex t i) = ([], Ok DSI_KEY).
Proof.
  intros H. split.
  - unfold get_decryption_key. rewrite H. reflexivity.
  - intros i. unfold get_decryption_key.
    change (get_titleid (with_ckeyindex t i)) with (get_titleid t).
    rewrite H. reflexivity.
Qed.

Lemma dsi_prefix_key_witness :
  get_decryption_key Sample.dsi_ticket = ([], Ok (repeat x0d 16)) /\
  forall i,
    get_decryption_key (with_ckeyindex Sample.dsi_ticket i)
    = ([], Ok (repeat x0d 16)).
Proof.
  apply (@dsi_prefix_key Sample.toy Sample.dsi_ticket). reflexivity.
Defined.

(** The same on the number: the title ids from 0x0003000000000000 to
    0x00030fffffffffff resolve to the DSi key and name. *)
Lemma dsi_range_key `{W : WADGEN} (t : Ticket) :
  844424930131968 <= titleid t < 844424930131968 + 17592186044416 ->
  get_decryption_key t = ([], Ok DSI_KEY) /\ get_common_key_type t = "DSi".
Proof.
  intros H.
  assert (Hp : startswith (get_titleid t) "00030" = true).
  { apply dsi_prefix_numeric.
    - change (2 ^ 64) with 18446744073709551616. lia.
    - change (2 ^ 44) with 17592186044416. symmetry.
      apply Z.div_unique with (r := titleid t - 844424930131968); lia. }
  unfold get_decryption_key, get_common_key_type. rewrite Hp.
  split; reflexivity.
Qed.

(** C5 (amended).  When the title id does not start with
    00030 and the key index is outside the key table (which has at
    least the three entries of the name table), the key resolves to
    entry 0 of the table after one warning line, and the name is
    "Unknown". *)
Theorem unknown_key_index `{W : WADGEN} (t : Ticket) :
  startswith (get_titleid t) "00030" = false ->
  (3 <= List.length DECRYPTION_KEYS)%nat ->
  ckeyindex t < - Z.of_nat (List.length DECRYPTION_KEYS)
  \/ Z.of_nat (List.length DECRYPTION_KEYS) <= ckeyindex t ->
  exists k0,
    nth_error DECRYPTION_KEYS 0 = Some k0 /\
    get_decryption_key t = ([unknown_key_warning], Ok k0) /\
    get_common_key_type t = "Unknown".
Proof.
  intros Hpre Hlen Hidx.
  destruct DECRYPTION_KEYS as [|k0 ks] eqn:E; [cbn in Hlen; lia|].
  exists k0. split; [reflexivity|]. split.
  - unfold get_decryption_key. rewrite Hpre, E.
    rewrite py_index_out_of_range by exact Hidx.
    reflexivity.
  - unfold get_common_key_type. rewrite Hpre.
    rewrite py_index_out_of_range; [reflexivity|].
    change (List.length key_types) with 3%nat. lia.
Qed.

Lemma unknown_key_index_witness :
  exists k0,
    nth_error Sample.keys 0 = Some k0 /\
    get_decryption_key (with_ckeyindex Sample.ticket 5)
    = ([unknown_key_warning], Ok k0) /\
    get_common_key_type (with_ckeyindex Sample.ticket 5) = "Unknown".
Proof.
  apply (@unknown_key_index Sample.toy (with_ckeyindex Sample.ticket 5)).
  - reflexivity.
  - cbn. lia.
  - right. cbn. lia.
Defined.

(** C5 (counterexample).  For a DSi title id with key index 5, outside
    the table, the DSi key is returned without a warning and the name is
    "DSi". *)
Lemma dsi_prefix_overrides_unknown_index :
  ckeyindex Sample.dsi_ticket = 5 /\
  py_index (@DECRYPTION_KEYS Sample.toy) (ckeyindex Sample.dsi_ticket) = None /\
  get_decryption_key Sample.dsi_ticket = ([], Ok (@DSI_KEY Sample.toy)) /\
  get_common_key_type Sample.dsi_ticket = "DSi" /\
  get_common_key_type Sample.dsi_ticket <> "Unknown".
Proof.
  repeat split. intros H. vm_compute in H. discriminate H.
Qed.

(** ** Fakesigning *)

Section Fakesign.

Context `{W : WADGEN}.

Lemma packable_with_padding (u : Ticket) (p : Z) :
  packable u -> 0 <= p < 2 ^ 16 -> packable (with_padding u p).
Proof.
  unfold packable. cbn [consoleid titleid titleversion permitted_titles_mask
                        permit_mask ckeyindex padding with_padding].
  tauto.
Qed.

Lemma packable_with_signature (t : Ticket) (sg : Signature) :
  packable t -> packable (with_signature t sg).
Proof.
  exact (fun H => H).
Qed.

(** The loop stops at the first candidate from [i] on that passes, or
    runs through its [n] candidates. *)
Lemma fakesign_loop_spec (n : nat) :
  forall (i : Z) (u : Ticket),
    packable u -> 0 <= i -> i + Z.of_nat n <= 2 ^ 16 ->
    (exists p,
        i <= p < i + Z.of_nat n /\
        probe u p = true /\
        (forall q, i <= q < p -> probe u q = false) /\
        fakesign_loop n i u = (with_padding u p, Ok true))
    \/ ((forall q, i <= q < i + Z.of_nat n -> probe u q = false) /\
        exists u',
          fakesign_loop n i u = (u', Ok false) /\
          forall v, with_padding u' v = with_padding u v).
Proof.
  induction n as [|n IH]; intros i u Hu Hi Hn.
  - right. split; [intros q Hq; lia|].
    exists u. split; reflexivity.
  - cbn [fakesign_loop].
    assert (Hpk : packable (with_padding u i))
      by (apply packable_with_padding; [exact Hu|lia]).
    pose proof (pack_ok (with_padding u i) false false Hpk) as Hb.
    assert (Hprobe : probe u i =
                     match pack (with_padding u i) false false with
                     | Ok b => startswith (create_sha1hash_hex b) "00"
                     | Err _ => false
                     end) by reflexivity.
    rewrite Hb in Hprobe |- *.
    match type of Hprobe with
    | _ = startswith ?h "00" => destruct (startswith h "00") eqn:Eh
    end.
    + left. exists i. repeat split; try lia; try assumption.
    + destruct (IH (i + 1) (with_padding u i) Hpk ltac:(lia) ltac:(lia))
        as [(p & Hp & Hok & Hmin & Hres) | (Hnone & u' & Hres & Hu')].
      * left. exists p. repeat split; try lia.
        -- exact Hok.
        -- intros q Hq. destruct (Z.eq_dec q i) as [->|Hne].
           ++ exact Hprobe.
           ++ apply (Hmin q). lia.
        -- rewrite Hres. reflexivity.
      * right. split.
        -- intros q Hq. destruct (Z.eq_dec q i) as [->|Hne].
           ++ exact Hprobe.
           ++ apply (Hnone q). lia.
        -- exists u'. split; [exact Hres|]. intros v. rewrite Hu'. reflexivity.
Qed.

(** The two ways a search on a packable ticket ends. *)
Lemma fakesign_cases (t : Ticket) :
  packable t ->
  (exists p,
      0 <= p <= 65534 /\
      hash_ok t p = true /\
      (forall q, 0 <= q < p -> hash_ok t q = false) /\
      fakesign t = (candidate t p, Ok tt))
  \/ ((forall q, 0 <= q <= 65534 -> hash_ok t q = false) /\
      fakesign t = (candidate t (padding t), Err fakesign_failed)).
Proof.
  intros Ht. unfold fakesign, hash_ok, candidate.
  set (t0 := with_signature t (Signature_zerofill (signature t))).
  destruct (fakesign_loop_spec (Z.to_nat 65535) 0 t0
              (packable_with_signature t _ Ht) ltac:(lia) ltac:(cbn; lia))
    as [(p & Hp & Hok & Hmin & Hres) | (Hnone & u' & Hres & Hu')].
  - left. exists p. rewrite Hres. repeat split; try lia; assumption.
  - right. split.
    + intros q Hq. apply Hnone. lia.
    + rewrite Hres, Hu'. reflexivity.
Qed.

(** Whatever the loop does, it only assigns [padding]. *)
Lemma fakesign_loop_frame (n : nat) :
  forall (i : Z) (u : Ticket),
    (forall v, with_padding (fst (fakesign_loop n i u)) v = with_padding u v)
    /\ (forall e,
           snd (fakesign_loop n i u) = Err e -> exists f, e = struct_error f).
Proof.
  induction n as [|n IH]; intros i u.
  - split; [reflexivity|]. cbn. discriminate.
  - cbn [fakesign_loop].
    destruct (pack (with_padding u i) false false) as [b|e0] eqn:Eb.
    + destruct (startswith (create_sha1hash_hex b) "00").
      * split; [reflexivity|]. cbn. discriminate.
      * destruct (IH (i + 1) (with_padding u i)) as [H1 H2].
        split; [|exact H2]. intros v. rewrite H1. reflexivity.
    + split; [reflexivity|]. cbn. intros e [= <-].
      exact (pack_err _ _ _ _ Eb).
Qed.

Lemma fakesign_outcome (t : Ticket) :
  (forall v,
      with_padding (fst (fakesign t)) v = candidate t v) /\
  (snd (fakesign t) = Err fakesign_failed ->
   fst (fakesign t) = candidate t (padding t)).
Proof.
  unfold fakesign, candidate.
  set (t0 := with_signature t (Signature_zerofill (signature t))).
  destruct (fakesign_loop_frame (Z.to_nat 65535) 0 t0) as [H1 H2].
  destruct (fakesign_loop (Z.to_nat 65535) 0 t0) as [u' [[|]|e]];
    cbn [fst snd] in *.
  - split; [exact H1|discriminate].
  - split.
    + intros v. rewrite <- H1. reflexivity.
    + intros _. rewrite <- H1. reflexivity.
  - split; [exact H1|].
    intros [= ->]. destruct (H2 _ eq_refl) as [f Hf]. discriminate Hf.
Qed.

End Fakesign.

Lemma stuck_never_passes (t : @Ticket Sample.stuck) (q : Z) :
  @hash_ok Sample.stuck t q = false.
Proof.
  unfold hash_ok, probe. destruct (pack _ false false); reflexivity.
Qed.

Lemma stuck_init_packable : packable (@Ticket_init Sample.stuck).
Proof.
  repeat split; cbn; lia.
Qed.

Lemma stuck_init_exhausted :
  snd (@fakesign Sample.stuck Ticket_init) = Err fakesign_failed.
Proof.
  destruct (@fakesign_cases Sample.stuck _ stuck_init_packable)
    as [(p & _ & Hok & _) | (_ & Hres)].
  - rewrite stuck_never_passes in Hok. discriminate Hok.
  - rewrite Hres. reflexivity.
Qed.

Lemma frame_of_candidate `{W : WADGEN} (t t' : Ticket) (p : Z) :
  with_padding t' p = candidate t p ->
  signature t' = Signature_zerofill (signature t) /\ same_frame t t'.
Proof.
  destruct t, t'. unfold candidate, with_padding, with_signature, same_frame.
  cbn. intros [= -> -> -> -> -> -> -> -> -> -> -> -> -> -> -> -> -> -> ->].
  repeat split.
Qed.

(** C3.  When no candidate of the searched range passes, the search
    fails with "Fakesigning failed." and the padding is back at its
    original value. *)
Theorem fakesign_exhausted `{W : WADGEN} (t : Ticket) :
  packable t ->
  (forall q, 0 <= q <= 65534 -> hash_ok t q = false) ->
  snd (fakesign t) = Err fakesign_failed /\
  padding (fst (fakesign t)) = padding t.
Proof.
  intros Ht Hnone.
  destruct (fakesign_cases t Ht)
    as [(p & Hp & Hok & _) | (_ & Hres)].
  - rewrite (Hnone p Hp) in Hok. discriminate Hok.
  - rewrite Hres. split; reflexivity.
Qed.

Lemma fakesign_exhausted_witness :
  snd (@fakesign Sample.stuck Ticket_init) = Err fakesign_failed /\
  padding (fst (@fakesign Sample.stuck Ticket_init)) = 0.
Proof.
  apply (@fakesign_exhausted Sample.stuck Ticket_init).
  - repeat split; cbn; lia.
  - intros q _. unfold hash_ok, probe.
    destruct (pack _ false false); reflexivity.
Defined.

(** C10.  In every outcome the signature is left zero-filled and every
    field other than signature and padding is untouched; when the
    search is exhausted the padding, and only the padding, is put back,
    so the ticket left behind is the original with a zeroed
    signature. *)
Theorem fakesign_frame `{W : WADGEN} (t : Ticket) :
  signature (fst (fakesign t)) = Signature_zerofill (signature t) /\
  same_frame t (fst (fakesign t)) /\
  (snd (fakesign t) = Err fakesign_failed ->
   padding (fst (fakesign t)) = padding t /\
   fst (fakesign t)
   = with_signature t (Signature_zerofill (signature t))).
Proof.
  destruct (fakesign_outcome t) as [H1 H2].
  destruct (frame_of_candidate t (fst (fakesign t)) 0 (H1 0)) as [Hs Hf].
  split; [exact Hs|]. split; [exact Hf|].
  intros Hfail. rewrite (H2 Hfail). split; reflexivity.
Qed.

(** After the exhausted search on the all-zero sample ticket the
    signature byte 0xaa has become 0x00 and the padding is 0 again: the
    ticket is not the one the search started from. *)
Lemma fakesign_frame_witness :
  signature (fst (@fakesign Sample.stuck Ticket_init)) = x00 /\
  padding (fst (@fakesign Sample.stuck Ticket_init)) = 0 /\
  fst (@fakesign Sample.stuck Ticket_init) <> Ticket_init.
Proof.
  destruct (@fakesign_frame Sample.stuck Ticket_init) as (Hs & _ & Hfail).
  destruct (Hfail stuck_init_exhausted) as [Hp Heq].
  split; [exact Hs|]. split; [exact Hp|].
  rewrite Heq. discriminate.
Defined.

(** ** Title key and title id setters *)

Lemma unhex_pairs_length (r b : bytes) :
  unhex_pairs b = Some r -> List.length b = (2 * List.length r)%nat.
Proof.
  revert b. induction r as [|x r IH]; intros b H.
  - destruct b as [|hi [|lo b]]; [reflexivity|discriminate H|].
    cbn [unhex_pairs] in H.
    destruct (hex_value (ascii_of_byte hi)); [|discriminate H].
    destruct (hex_value (ascii_of_byte lo)); [|discriminate H].
    destruct (unhex_pairs b); discriminate H.
  - destruct b as [|hi [|lo b]]; [discriminate H|discriminate H|].
    cbn [unhex_pairs] in H.
    destruct (hex_value (ascii_of_byte hi)); [|discriminate H].
    destruct (hex_value (ascii_of_byte lo)); [|discriminate H].
    destruct (unhex_pairs b) as [r'|] eqn:E; [|discriminate H].
    injection H as _ ->. cbn [List.length]. rewrite (IH b E). lia.
Qed.

Lemma a2b_hex_length (b r : bytes) :
  a2b_hex b = Ok r -> List.length b = (2 * List.length r)%nat.
Proof.
  unfold a2b_hex. destruct (Nat.odd (List.length b)); [discriminate|].
  destruct (unhex_pairs b) as [r'|] eqn:E; [|discriminate].
  intros [= <-]. exact (unhex_pairs_length _ _ E).
Qed.

Lemma encode_ascii_length (s : string) (b : bytes) :
  encode_ascii s = Some b -> List.length b = String.length s.
Proof.
  revert b. induction s as [|c s IH]; intros b H; cbn in H.
  - injection H as <-. reflexivity.
  - destruct (code c <? 128); [|discriminate H].
    destruct (encode_ascii s) as [b'|]; [|discriminate H].
    injection H as <-. cbn. rewrite (IH b' eq_refl). reflexivity.
Qed.

Lemma a2b_hex_str_length (s : string) (r : bytes) :
  a2b_hex_str s = Ok r -> String.length s = (2 * List.length r)%nat.
Proof.
  unfold a2b_hex_str. destruct (encode_ascii s) as [b|] eqn:E; [|discriminate].
  intros H. rewrite <- (encode_ascii_length _ _ E).
  exact (a2b_hex_length _ _ H).
Qed.

(** C8 (defect).  With [encrypted=False] the ciphertext that
    [encrypt_titlekey] returns is passed through [a2b_hex] once more.
    For a cipher that maps 16 bytes to 16 bytes the call either raises
    or stores 8 bytes; it never stores the ciphertext. *)
Theorem set_titlekey_plain_loses_ciphertext `{W : WADGEN}
        (t : Ticket) (key : string) (out : list string) (t' : Ticket) :
  (forall k iv p,
      List.length p = 16%nat ->
      List.length (encrypt_titlekey k iv p) = 16%nat) ->
  set_titlekey t key false = (out, Ok t') ->
  List.length (titlekey t') = 8%nat /\
  forall k iv p,
    List.length p = 16%nat -> titlekey t' <> encrypt_titlekey k iv p.
Proof.
  intros Hlen Hset.
  assert (H8 : List.length (titlekey t') = 8%nat).
  { unfold set_titlekey in Hset.
    destruct (Nat.eqb_spec (String.length key) 32) as [E32|];
      cbn [negb] in Hset; [|discriminate Hset].
    destruct (get_decryption_key t) as [o rk].
    injection Hset as _ Hset.
    destruct rk as [commonkey|]; [|discriminate Hset]. cbn [bind] in Hset.
    destruct (get_iv t) as [iv|]; [|discriminate Hset]. cbn [bind] in Hset.
    destruct (a2b_hex_str key) as [plain|] eqn:Ep; [|discriminate Hset].
    cbn [bind] in Hset.
    destruct (a2b_hex (encrypt_titlekey commonkey iv plain)) as [tk|] eqn:Et;
      [|discriminate Hset].
    cbn [bind] in Hset. injection Hset as <-. cbn [titlekey with_titlekey].
    apply a2b_hex_str_length in Ep. apply a2b_hex_length in Et.
    rewrite Hlen in Et by lia. lia. }
  split; [exact H8|].
  intros k iv p Hp Heq. rewrite Heq, (Hlen k iv p Hp) in H8. discriminate H8.
Qed.

Lemma set_titlekey_plain_loses_ciphertext_witness :
  List.length
    (titlekey (with_titlekey Sample.ticket (repeat x11 8))) = 8%nat /\
  forall k iv p,
    List.length p = 16%nat ->
    titlekey (with_titlekey Sample.ticket (repeat x11 8))
    <> Sample.xor_cipher k iv p.
Proof.
  apply (@set_titlekey_plain_loses_ciphertext Sample.toy Sample.ticket
           "30313032787173713030303030303030" []).
  - intros k iv p Hp. cbn [encrypt_titlekey Sample.toy Sample.instance].
    unfold Sample.xor_cipher. rewrite !xor_bytes_length. exact Hp.
  - reflexivity.
Defined.

(** The scenario of the specification on the sample instance: the
    all-zero plain key makes the second [a2b_hex] raise, and the ticket
    keeps its old title key. *)
Example set_titlekey_zero_plaintext :
  set_titlekey Sample.ticket "00000000000000000000000000000000" false
  = ([], Err (binascii_Error "Non-hexadecimal digit found")).
Proof. reflexivity. Qed.

Example set_titlekey_encrypted :
  set_titlekey Sample.ticket "00112233445566778899aabbccddeeff" true
  = ([], Ok (with_titlekey Sample.ticket
               [x00; x11; x22; x33; x44; x55; x66; x77;
                x88; x99; xaa; xbb; xcc; xdd; xee; xff])).
Proof. reflexivity. Qed.

(** C9 (defect).  [int(tid, 16)] accepts more than hexadecimal
    digits.  A 16-character string with a sign is stored as a negative
    title id, which the getter prints with the sign and which no longer
    packs; a 16-character string with the [0x] prefix, inner underscores
    or surrounding blanks is accepted and read back as a different
    string. *)
Theorem set_titleid_accepts_non_hex `{W : WADGEN} (t : Ticket) :
  set_titleid t "-000000000000001" = Ok (with_titleid t (-1)) /\
  get_titleid (with_titleid t (-1)) = "-000000000000001" /\
  get_iv (with_titleid t (-1)) = Err (struct_error F_iv) /\
  set_titleid t "0x00000000000001" = Ok (with_titleid t 1) /\
  set_titleid t "0000_0000_0000_1" = Ok (with_titleid t 1) /\
  set_titleid t "  000000000001  " = Ok (with_titleid t 1) /\
  get_titleid (with_titleid t 1) = "0000000000000001".
Proof.
  repeat split.
Qed.

Example set_titleid_scenario :
  option_map get_titleid
    (match set_titleid Sample.ticket "0001000248414341" with
     | Ok t => Some t
     | Err _ => None
     end) = Some "0001000248414341".
Proof. reflexivity. Qed.

Example set_titleid_upper :
  option_map get_titleid
    (match set_titleid Sample.ticket "00010002484E4C45" with
     | Ok t => Some t
     | Err _ => None
     end) = Some "00010002484e4c45".
Proof. reflexivity. Qed.

Example set_titleid_short :
  set_titleid Sample.ticket "1234"
  = Err (ValueError "Title ID must be 16 characters long.").
Proof. reflexivity. Qed.

Example set_titleid_not_hex :
  set_titleid Sample.ticket "000100024841434g" = Err invalid_literal.
Proof. reflexivity. Qed.

Example negative_titleid_does_not_pack :
  pack (with_titleid Sample.ticket (-1)) true true
  = Err (struct_error F_titleid).
Proof. reflexivity. Qed.

(** * Further properties of the code *)

(** ** What [parse] returns and when [pack] succeeds *)

Lemma f_read_length (n : nat) (s x s' : bytes) :
  f_read n s = Ok (x, s') -> (List.length x <= n)%nat.
Proof.
  unfold f_read. intros [= <- _]. rewrite length_firstn. lia.
Qed.

Lemma struct_pack_uint_range (f : field) (n : nat) (v : Z) (b : bytes) :
  struct_pack_uint f n v = Ok b -> 0 <= v < 2 ^ (8 * Z.of_nat n).
Proof.
  unfold struct_pack_uint.
  destruct ((0 <=? v) && (v <? 2 ^ (8 * Z.of_nat n)))%bool eqn:E;
    [|discriminate].
  intros _. apply andb_prop in E. destruct E as [E1 E2].
  apply Z.leb_le in E1. apply Z.ltb_lt in E2. lia.
Qed.

Ltac invert_binds H :=
  repeat match type of H with
         | pbind _ _ _ = Ok _ =>
             let a := fresh "a" in
             let s := fresh "s" in
             let Hs := fresh "Hs" in
             apply pbind_inv in H; destruct H as (a & s & Hs & H)
         end.

Ltac invert_steps :=
  repeat match goal with
         | H : sub_parse _ _ _ = Ok _ |- _ => apply sub_parse_inv in H
         | H : f_read ?n ?s = Ok (?x, _) |- _ =>
             pose proof (f_read_length _ _ _ _ H);
             apply f_read_inv in H; destruct H as [H ?]
         | H : unpack_uint _ _ _ = Ok _ |- _ =>
             apply unpack_uint_inv in H; destruct H as [H ?]
         | H : unpack_bool _ _ = Ok _ |- _ =>
             apply unpack_bool_inv in H; destruct H as (? & H & ?)
         end.

Section ParsePack.

Context `{W : WADGEN}.

(** What a successful [parse_stream] leaves: integers in range, every
    byte field before [limits] of full width, [limits] of at most 64
    bytes, two certificates, each block as its parser returned it. *)
Lemma parse_stream_facts (b : bytes) (t : Ticket) (rest : bytes) :
  parse_stream b = Ok (t, rest) ->
  packable t /\
  (List.length (issuer t) = 64 /\ List.length (ecdhdata t) = 60 /\
   List.length (unused1 t) = 3 /\ List.length (titlekey t) = 16 /\
   List.length (unknown1 t) = 1 /\ List.length (ticketid t) = 8 /\
   List.length (unknown2 t) = 2 /\ List.length (unknown3 t) = 48 /\
   List.length (content_access_permissions t) = 64 /\
   List.length (limits t) <= 64)%nat /\
  (exists r, Signature_parse b = Some (signature t, r)) /\
  (exists c0 c1 r0 r1,
      certificates t = [c0; c1] /\
      Certificate_parse r0 = Some (c0, r1) /\
      Certificate_parse r1 = Some (c1, rest)).
Proof.
  intros Hparse. unfold parse_stream in Hparse.
  invert_binds Hparse. injection Hparse as <- <-.
  invert_steps. full_reads.
  cbn [signature issuer ecdhdata unused1 titlekey unknown1 ticketid consoleid
       titleid unknown2 titleversion permitted_titles_mask permit_mask
       export_allowed ckeyindex unknown3 content_access_permissions padding
       limits certificates].
  split; [|split; [|split]].
  - repeat split; cbn; lia.
  - repeat split; assumption.
  - eexists. eassumption.
  - do 4 eexists. split; [reflexivity|]. split; eassumption.
Qed.

Lemma pack_packable (t : Ticket) (sg ce : bool) (out : bytes) :
  pack t sg ce = Ok out -> packable t.
Proof.
  unfold pack, bind.
  repeat match goal with
         | |- context [struct_pack_uint ?f ?n ?v] =>
             let E := fresh "E" in
             destruct (struct_pack_uint f n v) eqn:E;
             [ apply struct_pack_uint_range in E | discriminate ]
         end.
  intros _. repeat split; cbn; lia.
Qed.

End ParsePack.

(** X1.  A ticket that [parse] returns can always be packed: its
    integers are in the range of their formats, whatever the input
    bytes were; its byte fields up to [content_access_permissions] have
    the widths of the layout, [limits] holds at most 64 bytes and there
    are exactly two certificates. *)
Theorem parsed_ticket_packs `{W : WADGEN} (b : bytes) (t : Ticket) :
  parse b = Ok t ->
  packable t /\
  (List.length (issuer t) = 64 /\ List.length (ecdhdata t) = 60 /\
   List.length (unused1 t) = 3 /\ List.length (titlekey t) = 16 /\
   List.length (unknown1 t) = 1 /\ List.length (ticketid t) = 8 /\
   List.length (unknown2 t) = 2 /\ List.length (unknown3 t) = 48 /\
   List.length (content_access_permissions t) = 64 /\
   List.length (limits t) <= 64 /\
   List.length (certificates t) = 2)%nat /\
  forall sg ce, exists out, pack t sg ce = Ok out.
Proof.
  intros H. unfold parse in H.
  destruct (parse_stream b) as [[t0 rest]|e] eqn:E; [|discriminate H].
  injection H as ->.
  destruct (parse_stream_facts b t rest E)
    as (Hp & Hl & _ & (c0 & c1 & r0 & r1 & Hc & _)).
  split; [exact Hp|]. split.
  - rewrite Hc. cbn [List.length]. tauto.
  - intros sg ce. eexists. apply (pack_ok t sg ce Hp).
Qed.

Lemma parsed_ticket_packs_witness :
  packable Sample.ticket /\
  (List.length (issuer Sample.ticket) = 64 /\
   List.length (ecdhdata Sample.ticket) = 60 /\
   List.length (unused1 Sample.ticket) = 3 /\
   List.length (titlekey Sample.ticket) = 16 /\
   List.length (unknown1 Sample.ticket) = 1 /\
   List.length (ticketid Sample.ticket) = 8 /\
   List.length (unknown2 Sample.ticket) = 2 /\
   List.length (unknown3 Sample.ticket) = 48 /\
   List.length (content_access_permissions Sample.ticket) = 64 /\
   List.length (limits Sample.ticket) <= 64 /\
   List.length (certificates Sample.ticket) = 2)%nat /\
  forall sg ce, exists out, pack Sample.ticket sg ce = Ok out.
Proof.
  apply (@parsed_ticket_packs Sample.toy Sample.noncanonical Sample.ticket).
  reflexivity.
Defined.

(** X2.  [pack] raises exactly when an integer field does not fit its
    [struct] format; the two flags and the byte fields play no part in
    that. *)
Theorem pack_succeeds_iff_packable `{W : WADGEN}
        (t : Ticket) (sg ce : bool) :
  (exists out, pack t sg ce = Ok out) <-> packable t.
Proof.
  split.
  - intros [out H]. exact (pack_packable t sg ce out H).
  - intros H. eexists. apply (pack_ok t sg ce H).
Qed.

(** X3.  The flags of [pack] only add to the record: the signature
    bytes in front when [include_signature] is set, the certificates in
    list order behind when [include_certificates] is set.  The record
    bytes in between are the same in all four cases. *)
Theorem pack_flags_wrap_record `{W : WADGEN} (t : Ticket) (body : bytes) :
  pack t false false = Ok body ->
  forall sg ce,
    pack t sg ce =
    Ok ((if sg then Signature_pack (signature t) else [])
        ++ body
        ++ (if ce then List.concat (map Certificate_pack (certificates t))
            else [])).
Proof.
  intros H sg ce.
  pose proof (pack_packable t false false body H) as Hp.
  pose proof (pack_ok t false false Hp) as Hb. rewrite H in Hb.
  apply (f_equal (fun r => match r with Ok x => x | Err _ => [] end)) in Hb.
  rewrite Hb, (pack_ok t sg ce Hp).
  repeat rewrite <- app_assoc. reflexivity.
Qed.

Lemma pack_flags_wrap_record_witness :
  pack Sample.ticket true true =
  Ok ([xaa]
      ++ (zeros 152 ++ be_encode 4 7 ++ be_encode 8 281484778881857
          ++ zeros 2 ++ be_encode 2 5 ++ zeros 8 ++ [x01; x00] ++ zeros 112
          ++ be_encode 2 513 ++ zeros 64)
      ++ [xcc; xcd]).
Proof.
  apply (@pack_flags_wrap_record Sample.toy Sample.ticket _ eq_refl true true).
Defined.

(** X4.  The record that [pack] writes without signature and
    certificates is 356 bytes long for every ticket whose byte fields
    have the widths of the layout. *)
Theorem pack_record_length `{W : WADGEN} (t : Ticket) :
  packable t -> well_sized t ->
  exists body,
    pack t false false = Ok body /\ List.length body = 356%nat.
Proof.
  intros Hp (L1 & L2 & L3 & L4 & L5 & L6 & L7 & L8 & L9 & L10 & _).
  eexists. split; [apply (pack_ok t false false Hp)|].
  repeat rewrite length_app. unfold struct_pack_bool. cbn [List.length]. rewrite !be_encode_length.
  rewrite L1, L2, L3, L4, L5, L6, L7, L8, L9, L10. reflexivity.
Qed.

Lemma pack_record_length_witness :
  exists body,
    pack Sample.ticket false false = Ok body /\ List.length body = 356%nat.
Proof.
  apply (@pack_record_length Sample.toy Sample.ticket).
  - repeat split; cbn; lia.
  - repeat split.
Defined.

(** X5.  Packing and parsing again is stable: when the sub-block
    parsers only return blocks they read back from their own [pack], a
    parsed ticket whose [limits] field was read in full is the ticket
    that [parse] returns on its packed bytes.  (The first [parse] may
    have normalised the export flag and dropped trailing bytes; the
    second changes nothing.) *)
Theorem reparse_stable `{W : WADGEN} (b : bytes) (t : Ticket) :
  (forall b s r, Signature_parse b = Some (s, r) -> signature_reads_back s) ->
  (forall b c r,
      Certificate_parse b = Some (c, r) -> certificate_reads_back c) ->
  parse b = Ok t ->
  List.length (limits t) = 64%nat ->
  exists out, pack t true true = Ok out /\ parse out = Ok t.
Proof.
  intros Hsig Hcert H Hlim. unfold parse in H.
  destruct (parse_stream b) as [[t0 rest]|e] eqn:E; [|discriminate H].
  injection H as ->.
  destruct (parse_stream_facts b t rest E)
    as (Hp & Hl & (r & Hs) & (c0 & c1 & r0 & r1 & Hc & Hc0 & Hc1)).
  assert (Hv : valid t).
  { split; [exact Hp|]. split; [|split].
    - unfold well_sized. rewrite Hc, Hlim. cbn [List.length]. tauto.
    - exact (Hsig _ _ _ Hs).
    - rewrite Hc. repeat constructor.
      + exact (Hcert _ _ _ Hc0).
      + exact (Hcert _ _ _ Hc1). }
  destruct (parse_stream_pack t [] Hv) as (out & Hout & Hre).
  exists out. split; [exact Hout|].
  unfold parse. rewrite app_nil_r in Hre. rewrite Hre. reflexivity.
Qed.

Lemma reparse_stable_witness :
  exists out,
    pack Sample.ticket true true = Ok out /\ parse out = Ok Sample.ticket.
Proof.
  apply (@reparse_stable Sample.toy Sample.noncanonical Sample.ticket).
  - intros b s r _ rest. reflexivity.
  - intros b c r _ rest. reflexivity.
  - reflexivity.
  - reflexivity.
Defined.

(** ** More on the fakesigning search *)

Section FakesignMore.

Context `{W : WADGEN}.

Lemma fakesign_loop_success (n : nat) :
  forall (i : Z) (u u' : Ticket),
    fakesign_loop n i u = (u', Ok true) ->
    exists p out,
      i <= p < i + Z.of_nat n /\
      u' = with_padding u p /\
      pack u' false false = Ok out /\
      startswith (create_sha1hash_hex out) "00" = true.
Proof.
  induction n as [|n IH]; intros i u u' H.
  - cbn in H. discriminate H.
  - cbn [fakesign_loop] in H.
    destruct (pack (with_padding u i) false false) as [out|e] eqn:Ep;
      [|discriminate H].
    destruct (startswith (create_sha1hash_hex out) "00") eqn:Eh.
    + injection H as <-. exists i, out. repeat split; try lia; assumption.
    + destruct (IH _ _ _ H) as (p & out' & Hp & Hu & Hpk & Hh).
      exists p, out'. repeat split; try lia; assumption.
Qed.

Lemma pack_unsigned_frame (u u' : Ticket) :
  same_frame u u' -> padding u' = padding u ->
  pack u' false false = pack u false false.
Proof.
  destruct u, u'. unfold same_frame. cbn.
  intros (-> & -> & -> & -> & -> & -> & -> & -> & -> & -> & -> & -> & ->
          & -> & -> & -> & -> & ->) ->.
  reflexivity.
Qed.

Lemma same_frame_with_padding (u u' : Ticket) (i : Z) :
  same_frame u u' -> same_frame (with_padding u i) (with_padding u' i).
Proof.
  exact (fun H => H).
Qed.

(** Two tickets that differ in signature and padding only go through
    the loop in the same way. *)
Lemma fakesign_loop_frame_eq (n : nat) :
  forall (i : Z) (u u' : Ticket),
    same_frame u u' ->
    snd (fakesign_loop n i u') = snd (fakesign_loop n i u) /\
    (n <> 0%nat ->
     padding (fst (fakesign_loop n i u'))
     = padding (fst (fakesign_loop n i u))).
Proof.
  induction n as [|n IH]; intros i u u' H.
  - split; [reflexivity|]. intros Hn. contradiction.
  - cbn [fakesign_loop].
    rewrite (pack_unsigned_frame (with_padding u i) (with_padding u' i)
               (same_frame_with_padding u u' i H) eq_refl).
    destruct (pack (with_padding u i) false false) as [out|e].
    + destruct (startswith (create_sha1hash_hex out) "00").
      * split; reflexivity.
      * destruct (IH (i + 1) (with_padding u i) (with_padding u' i)
                    (same_frame_with_padding u u' i H)) as [H1 H2].
        split; [exact H1|]. intros _.
        destruct n as [|n]; [reflexivity|]. apply H2. discriminate.
    + split; reflexivity.
Qed.

Lemma fakesign_loop_ext (n : nat) (i : Z) (u u' : Ticket) :
  (forall v, with_padding u' v = with_padding u v) ->
  n <> 0%nat ->
  fakesign_loop n i u' = fakesign_loop n i u.
Proof.
  intros H Hn. destruct n as [|n]; [contradiction|].
  cbn [fakesign_loop]. rewrite H. reflexivity.
Qed.

End FakesignMore.

(** X6.  When [fakesign] returns normally, the ticket it leaves packs
    without signature to bytes whose digest starts with 00, and its
    padding is one of 0..65534.  No assumption on the ticket is needed:
    a normal return means [pack] succeeded. *)
Theorem fakesign_success_hash `{W : WADGEN} (t : Ticket) :
  snd (fakesign t) = Ok tt ->
  0 <= padding (fst (fakesign t)) <= 65534 /\
  exists out,
    pack (fst (fakesign t)) false false = Ok out /\
    startswith (create_sha1hash_hex out) "00" = true.
Proof.
  unfold fakesign.
  set (t0 := with_signature t (Signature_zerofill (signature t))).
  destruct (fakesign_loop (Z.to_nat 65535) 0 t0) as [u' [[|]|e]] eqn:E;
    cbn [fst snd]; try discriminate.
  intros _.
  destruct (fakesign_loop_success _ _ _ _ E) as (p & out & Hp & -> & Hpk & Hh).
  split; [cbn [padding with_padding]; lia|].
  exists out. split; assumption.
Qed.

Lemma fakesign_success_hash_witness :
  0 <= padding (fst (fakesign Sample.ticket)) <= 65534 /\
  exists out,
    pack (fst (fakesign Sample.ticket)) false false = Ok out /\
    startswith (Sample.sum_digest out) "00" = true.
Proof.
  apply (@fakesign_success_hash Sample.toy Sample.ticket). reflexivity.
Defined.

(** X7.  The search does not look at the signature or at the padding
    the ticket comes with: two tickets that agree on every other field
    end in the same way, and on success with the same padding. *)
Theorem fakesign_ignores_signature_and_padding `{W : WADGEN}
        (t t' : Ticket) :
  same_frame t t' ->
  snd (fakesign t') = snd (fakesign t) /\
  (snd (fakesign t) = Ok tt ->
   padding (fst (fakesign t')) = padding (fst (fakesign t))).
Proof.
  intros H. unfold fakesign.
  set (t0 := with_signature t (Signature_zerofill (signature t))).
  set (t0' := with_signature t' (Signature_zerofill (signature t'))).
  destruct (fakesign_loop_frame_eq (Z.to_nat 65535) 0 t0 t0' H) as [H1 H2].
  specialize (H2 ltac:(discriminate)).
  destruct (fakesign_loop (Z.to_nat 65535) 0 t0) as [u [[|]|e]];
    destruct (fakesign_loop (Z.to_nat 65535) 0 t0') as [u' [[|]|e']];
    cbn [fst snd] in *; try discriminate H1.
  - split; [reflexivity|]. intros _. exact H2.
  - split; [reflexivity|]. discriminate.
  - injection H1 as ->. split; [reflexivity|]. discriminate.
Qed.

Lemma fakesign_ignores_signature_and_padding_witness :
  snd (fakesign (with_padding (with_signature Sample.ticket x77) 9))
  = snd (fakesign Sample.ticket) /\
  (snd (fakesign Sample.ticket) = Ok tt ->
   padding (fst (fakesign (with_padding (with_signature Sample.ticket x77) 9)))
   = padding (fst (fakesign Sample.ticket))).
Proof.
  apply (@fakesign_ignores_signature_and_padding Sample.toy).
  repeat split.
Defined.

(** X8.  Fakesigning a ticket again changes nothing: when zero-filling
    the zero-filled signature gives it back, a second [fakesign] on the
    ticket a successful one left returns normally with the same
    ticket. *)
Theorem fakesign_idempotent `{W : WADGEN} (t : Ticket) :
  Signature_zerofill (Signature_zerofill (signature t))
  = Signature_zerofill (signature t) ->
  snd (fakesign t) = Ok tt ->
  fakesign (fst (fakesign t)) = fakesign t.
Proof.
  intros Hz Hok.
  destruct (fakesign_outcome t) as [H1 _].
  destruct (frame_of_candidate t (fst (fakesign t)) 0 (H1 0)) as [Hs _].
  set (t1 := fst (fakesign t)) in *.
  assert (Hext : forall v,
             with_padding
               (with_signature t1 (Signature_zerofill (signature t1))) v
             = with_padding
                 (with_signature t (Signature_zerofill (signature t))) v).
  { intros v. rewrite Hs, Hz.
    change (with_padding
              (with_signature t1 (Signature_zerofill (signature t))) v)
      with (with_signature (with_padding t1 v)
              (Signature_zerofill (signature t))).
    rewrite H1. reflexivity. }
  unfold fakesign at 1.
  rewrite (fakesign_loop_ext (Z.to_nat 65535) 0 _ _ Hext ltac:(discriminate)).
  subst t1. revert Hok. unfold fakesign.
  destruct (fakesign_loop (Z.to_nat 65535) 0
              (with_signature t (Signature_zerofill (signature t))))
    as [u [[|]|e]]; cbn [fst snd]; try discriminate.
  reflexivity.
Qed.

Lemma fakesign_idempotent_witness :
  fakesign (fst (fakesign Sample.ticket)) = fakesign Sample.ticket.
Proof.
  apply (@fakesign_idempotent Sample.toy Sample.ticket); reflexivity.
Defined.

(** X9.  When an integer field other than the padding does not fit its
    format, [fakesign] raises the [struct.error] of [pack] at the first
    candidate.  Nothing is put back on that path: the signature stays
    zero-filled and the padding stays 0, whatever it was. *)
Theorem fakesign_struct_error `{W : WADGEN} (t : Ticket) :
  ~ packable (candidate t 0) ->
  exists f,
    fakesign t = (candidate t 0, Err (struct_error f)) /\
    padding (fst (fakesign t)) = 0.
Proof.
  intros Hnp. unfold fakesign.
  change (Z.to_nat 65535) with (S (Z.to_nat 65534)).
  cbn [fakesign_loop]. fold (candidate t 0).
  destruct (pack (candidate t 0) false false) as [out|e] eqn:E.
  - exfalso. apply Hnp. exact (pack_packable _ _ _ _ E).
  - destruct (pack_err _ _ _ _ E) as [f ->].
    exists f. split; reflexivity.
Qed.

Lemma fakesign_struct_error_witness :
  exists f,
    fakesign (with_titleid Sample.ticket (-1))
    = (candidate (with_titleid Sample.ticket (-1)) 0, Err (struct_error f)) /\
    padding (fst (fakesign (with_titleid Sample.ticket (-1)))) = 0.
Proof.
  apply (@fakesign_struct_error Sample.toy (with_titleid Sample.ticket (-1))).
  intros (_ & H & _). cbn in H. lia.
Defined.

(** X30.  On a ticket whose integer fields fit their formats the search
    hashes, with the signature zeroed, the candidates 0, 1, 2, ... in
    ascending order and ends in one of two ways: at the least candidate
    [p] in [0, 65534] whose digest starts with 00, leaving the padding
    at [p]; or, when no candidate in [0, 65534] passes, with the
    failure.  Candidate 65535 plays no part. *)
Theorem fakesign_least_candidate `{W : WADGEN} (t : Ticket) :
  packable t ->
  (exists p,
      0 <= p <= 65534 /\
      hash_ok t p = true /\
      (forall q, 0 <= q < p -> hash_ok t q = false) /\
      fakesign t = (candidate t p, Ok tt) /\
      padding (fst (fakesign t)) = p)
  \/ ((forall q, 0 <= q <= 65534 -> hash_ok t q = false) /\
      snd (fakesign t) = Err fakesign_failed).
Proof.
  intros Ht.
  destruct (fakesign_cases t Ht)
    as [(p & Hp & Hok & Hmin & Hres) | (Hnone & Hres)].
  - left. exists p. rewrite Hres. repeat split; try lia; assumption.
  - right. rewrite Hres. split; [exact Hnone|reflexivity].
Qed.

Lemma fakesign_least_candidate_witness :
  (exists p,
      0 <= p <= 65534 /\
      hash_ok Sample.ticket p = true /\
      (forall q, 0 <= q < p -> hash_ok Sample.ticket q = false) /\
      fakesign Sample.ticket = (candidate Sample.ticket p, Ok tt) /\
      padding (fst (fakesign Sample.ticket)) = p)
  \/ ((forall q, 0 <= q <= 65534 -> hash_ok Sample.ticket q = false) /\
      snd (fakesign Sample.ticket) = Err fakesign_failed).
Proof.
  apply (@fakesign_least_candidate Sample.toy Sample.ticket).
  repeat split; cbn; lia.
Defined.

(** ** Title key text *)

Lemma hexlify_byte_chars (x : byte) :
  (code (hex_digit_lower (byte_to_Z x / 16)) <? 128) = true /\
  (code (hex_digit_lower (byte_to_Z x mod 16)) <? 128) = true /\
  hex_value (ascii_of_byte
               (byte_of_ascii (hex_digit_lower (byte_to_Z x / 16))))
  = Some (byte_to_Z x / 16) /\
  hex_value (ascii_of_byte
               (byte_of_ascii (hex_digit_lower (byte_to_Z x mod 16))))
  = Some (byte_to_Z x mod 16) /\
  byte_of_Z (16 * (byte_to_Z x / 16) + byte_to_Z x mod 16) = x.
Proof.
  destruct x; repeat split; reflexivity.
Qed.

Lemma hexlify_length (b : bytes) :
  String.length (hexlify b) = (2 * List.length b)%nat.
Proof.
  induction b as [|x b IH]; cbn [hexlify String.length List.length];
    [reflexivity|]. rewrite IH. lia.
Qed.

Lemma unhex_hexlify (b : bytes) :
  exists bs,
    encode_ascii (hexlify b) = Some bs /\
    unhex_pairs bs = Some b /\
    List.length bs = (2 * List.length b)%nat.
Proof.
  induction b as [|x b (bs & E1 & E2 & E3)].
  - exists []. repeat split.
  - destruct (hexlify_byte_chars x) as (A1 & A2 & H1 & H2 & Hx).
    exists (byte_of_ascii (hex_digit_lower (byte_to_Z x / 16))
              :: byte_of_ascii (hex_digit_lower (byte_to_Z x mod 16)) :: bs).
    cbn [hexlify encode_ascii]. rewrite A1, A2, E1. cbn [option_map].
    split; [reflexivity|]. split.
    + cbn [unhex_pairs]. rewrite H1, H2, E2, Hx. reflexivity.
    + cbn [List.length]. rewrite E3. lia.
Qed.

(** Reading the hexadecimal text of some bytes gives the bytes back. *)
Lemma a2b_hex_str_hexlify (b : bytes) : a2b_hex_str (hexlify b) = Ok b.
Proof.
  destruct (unhex_hexlify b) as (bs & E1 & E2 & E3).
  unfold a2b_hex_str, a2b_hex. rewrite E1, E3, Nat.odd_mul, E2. reflexivity.
Qed.

Lemma hex_digit_lower_upper (d : Z) :
  0 <= d < 16 -> hex_digit_lower d = lower_char (hex_digit_upper d).
Proof.
  intros H.
  assert (d = 0 \/ d = 1 \/ d = 2 \/ d = 3 \/ d = 4 \/ d = 5 \/ d = 6 \/ d = 7
          \/ d = 8 \/ d = 9 \/ d = 10 \/ d = 11 \/ d = 12 \/ d = 13 \/ d = 14
          \/ d = 15) as Hd by lia.
  repeat destruct Hd as [-> | Hd]; try reflexivity. subst d. reflexivity.
Qed.

Lemma hexlify_pair (h l : Z) :
  0 <= h < 16 -> 0 <= l < 16 ->
  byte_to_Z (byte_of_Z (16 * h + l)) / 16 = h /\
  byte_to_Z (byte_of_Z (16 * h + l)) mod 16 = l.
Proof.
  intros Hh Hl. rewrite byte_to_of_Z, Z.mod_small by lia. split.
  - symmetry. apply Z.div_unique with (r := l); lia.
  - symmetry. apply Z.mod_unique with (q := h); lia.
Qed.

Lemma hexlify_cons (x : byte) (r : bytes) :
  hexlify (x :: r) =
  String (hex_digit_lower (byte_to_Z x / 16))
    (String (hex_digit_lower (byte_to_Z x mod 16)) (hexlify r)).
Proof.
  reflexivity.
Qed.

Lemma unhex_pairs_cons (hi lo : byte) (r : bytes) :
  unhex_pairs (hi :: lo :: r) =
  match hex_value (ascii_of_byte hi), hex_value (ascii_of_byte lo),
        unhex_pairs r with
  | Some h, Some l, Some r' => Some (byte_of_Z (16 * h + l) :: r')
  | _, _, _ => None
  end.
Proof.
  reflexivity.
Qed.

(** What [a2b_hex] accepts is hexadecimal digits, and the text of the
    bytes it returns is the input in lower case. *)
Lemma unhex_pairs_text (b : bytes) :
  forall (s : string) (bs : bytes),
    encode_ascii s = Some bs -> unhex_pairs bs = Some b ->
    all_chars is_hex s = true /\ hexlify b = lower s.
Proof.
  induction b as [|x b IH]; intros s bs Hs Hb.
  - destruct bs as [|hi [|lo bs]]; [|discriminate Hb|].
    + destruct s as [|c s]; [split; reflexivity|].
      cbn in Hs. destruct (code c <? 128); [|discriminate Hs].
      destruct (encode_ascii s); discriminate Hs.
    + rewrite unhex_pairs_cons in Hb.
      destruct (hex_value (ascii_of_byte hi)); [|discriminate Hb].
      destruct (hex_value (ascii_of_byte lo)); [|discriminate Hb].
      destruct (unhex_pairs bs); discriminate Hb.
  - destruct bs as [|hi [|lo bs]]; [discriminate Hb|discriminate Hb|].
    rewrite unhex_pairs_cons in Hb.
    destruct (hex_value (ascii_of_byte hi)) as [h|] eqn:Eh; [|discriminate Hb].
    destruct (hex_value (ascii_of_byte lo)) as [l|] eqn:El; [|discriminate Hb].
    destruct (unhex_pairs bs) as [b'|] eqn:Eb; [|discriminate Hb].
    injection Hb as <- ->.
    destruct s as [|c1 [|c2 s]]; [discriminate Hs| |].
    { cbn in Hs. destruct (code c1 <? 128); discriminate Hs. }
    cbn [encode_ascii] in Hs.
    destruct (code c1 <? 128); [|discriminate Hs].
    destruct (code c2 <? 128); [|discriminate Hs].
    destruct (encode_ascii s) as [bs'|] eqn:Es; [|discriminate Hs].
    cbn [option_map] in Hs. injection Hs as <- <- <-.
    unfold byte_of_ascii in Eh, El.
    rewrite Ascii.ascii_of_byte_of_ascii in Eh, El.
    destruct (IH s bs' Es Eb) as [Hall Htxt].
    destruct (hex_value_digit c1 h Eh) as [Hh Hc1].
    destruct (hex_value_digit c2 l El) as [Hl Hc2].
    split.
    + cbn [all_chars]. unfold is_hex at 1 2. rewrite Eh, El, Hall. reflexivity.
    + change (hexlify (byte_of_Z (16 * h + l) :: b)
              = lower (String c1 (String c2 s))).
      rewrite hexlify_cons. change (lower (String c1 (String c2 s)))
        with (String (lower_char c1) (String (lower_char c2) (lower s))).
      destruct (hexlify_pair h l Hh Hl) as [-> ->].
      rewrite !hex_digit_lower_upper by assumption.
      rewrite Hc1, Hc2, Htxt. reflexivity.
Qed.

Lemma is_hex_ascii (c : ascii) :
  is_hex c = true ->
  (code c <? 128) = true /\
  exists d, hex_value (ascii_of_byte (byte_of_ascii c)) = Some d.
Proof.
  intros H. unfold byte_of_ascii. rewrite Ascii.ascii_of_byte_of_ascii.
  split.
  - destruct c as [[] [] [] [] [] [] [] []]; cbn in H |- *;
      first [reflexivity | discriminate H].
  - unfold is_hex in H. destruct (hex_value c) as [d|]; [|discriminate H].
    exists d. reflexivity.
Qed.

Lemma unhex_digits (n : nat) :
  forall s : string,
    String.length s = (2 * n)%nat -> all_chars is_hex s = true ->
    exists bs b, encode_ascii s = Some bs /\ unhex_pairs bs = Some b /\
                 List.length bs = (2 * n)%nat.
Proof.
  induction n as [|n IH]; intros s Hlen Hall.
  - destruct s; [|discriminate Hlen]. exists [], []. repeat split.
  - destruct s as [|c1 [|c2 s]]; try (cbn in Hlen; lia).
    cbn [all_chars] in Hall.
    apply andb_prop in Hall. destruct Hall as [H1 Hall].
    apply andb_prop in Hall. destruct Hall as [H2 Hall].
    destruct (IH s ltac:(cbn in Hlen; lia) Hall) as (bs & b & E1 & E2 & E3).
    destruct (is_hex_ascii c1 H1) as (A1 & d1 & D1).
    destruct (is_hex_ascii c2 H2) as (A2 & d2 & D2).
    exists (byte_of_ascii c1 :: byte_of_ascii c2 :: bs),
           (byte_of_Z (16 * d1 + d2) :: b).
    cbn [encode_ascii unhex_pairs]. rewrite A1, A2, E1, D1, D2, E2.
    repeat split. cbn [List.length]. rewrite E3. lia.
Qed.

Lemma a2b_hex_str_ok_iff (s : string) :
  (exists b, a2b_hex_str s = Ok b) <->
  Nat.even (String.length s) = true /\ all_chars is_hex s = true.
Proof.
  split.
  - intros [b H]. split.
    + rewrite (a2b_hex_str_length s b H), Nat.even_mul. reflexivity.
    + unfold a2b_hex_str, a2b_hex in H.
      destruct (encode_ascii s) as [bs|] eqn:Es; [|discriminate H].
      destruct (Nat.odd (List.length bs)); [discriminate H|].
      destruct (unhex_pairs bs) as [b'|] eqn:Eb; [|discriminate H].
      exact (proj1 (unhex_pairs_text b' s bs Es Eb)).
  - intros [Hev Hall]. apply Nat.even_spec in Hev. destruct Hev as [n Hn].
    destruct (unhex_digits n s Hn Hall) as (bs & b & E1 & E2 & E3).
    exists b. unfold a2b_hex_str, a2b_hex.
    rewrite E1, E3, Nat.odd_mul, E2. reflexivity.
Qed.

Lemma a2b_hex_str_text (s : string) (b : bytes) :
  a2b_hex_str s = Ok b -> hexlify b = lower s.
Proof.
  unfold a2b_hex_str, a2b_hex.
  destruct (encode_ascii s) as [bs|] eqn:Es; [|discriminate].
  destruct (Nat.odd (List.length bs)); [discriminate|].
  destruct (unhex_pairs bs) as [b'|] eqn:Eb; [|discriminate].
  intros [= <-]. exact (proj2 (unhex_pairs_text b' s bs Es Eb)).
Qed.

Lemma with_titlekey_same `{W : WADGEN} (t : Ticket) :
  with_titlekey t (titlekey t) = t.
Proof.
  destruct t. reflexivity.
Qed.

Lemma set_titlekey_encrypted_inv `{W : WADGEN}
      (t : Ticket) (key : string) (out : list string) (t' : Ticket) :
  set_titlekey t key true = (out, Ok t') ->
  String.length key = 32%nat /\ out = [] /\
  exists tk, a2b_hex_str key = Ok tk /\ t' = with_titlekey t tk.
Proof.
  unfold set_titlekey.
  destruct (Nat.eqb_spec (String.length key) 32) as [E|E]; cbn [negb];
    [|discriminate].
  destruct (a2b_hex_str key) as [tk|] eqn:Ek; cbn [bind]; [|discriminate].
  intros [= <- <-]. split; [exact E|]. split; [reflexivity|].
  exists tk. split; reflexivity.
Qed.

(** X10.  With [encrypted=True] the title key setter accepts exactly the
    strings of 32 hexadecimal digits (in either case); a string of
    another length is rejected with "Key must be 32 characters long."
    whatever the flag. *)
Theorem set_titlekey_encrypted_accepts `{W : WADGEN}
        (t : Ticket) (key : string) :
  ((exists t', set_titlekey t key true = ([], Ok t')) <->
   String.length key = 32%nat /\ all_chars is_hex key = true) /\
  (String.length key <> 32%nat ->
   forall encrypted,
     set_titlekey t key encrypted
     = ([], Err (Exception "Key must be 32 characters long."))).
Proof.
  split; [split|].
  - intros [t' H].
    destruct (set_titlekey_encrypted_inv t key [] t' H)
      as (Hlen & _ & tk & Hk & _).
    split; [exact Hlen|].
    exact (proj2 (proj1 (a2b_hex_str_ok_iff key) (ex_intro _ tk Hk))).
  - intros [Hlen Hall].
    destruct (proj2 (a2b_hex_str_ok_iff key)) as [tk Hk].
    { split; [rewrite Hlen; reflexivity|exact Hall]. }
    exists (with_titlekey t tk). unfold set_titlekey.
    rewrite Hlen, Hk. reflexivity.
  - intros Hlen encrypted. unfold set_titlekey.
    destruct (Nat.eqb_spec (String.length key) 32); [contradiction|].
    reflexivity.
Qed.

(** X11.  After [set_titlekey(key, encrypted=True)] the stored key has
    16 bytes, [get_encrypted_titlekey_hex] returns [key] in lower case,
    nothing was printed and no other field has changed. *)
Theorem set_titlekey_then_hex `{W : WADGEN}
        (t : Ticket) (key : string) (out : list string) (t' : Ticket) :
  set_titlekey t key true = (out, Ok t') ->
  out = [] /\
  t' = with_titlekey t (titlekey t') /\
  List.length (titlekey t') = 16%nat /\
  get_encrypted_titlekey_hex t' = lower key.
Proof.
  intros H.
  destruct (set_titlekey_encrypted_inv t key out t' H)
    as (Hlen & Hout & tk & Hk & ->).
  split; [exact Hout|]. split; [reflexivity|].
  cbn [titlekey with_titlekey]. split.
  - pose proof (a2b_hex_str_length key tk Hk) as Hl. lia.
  - unfold get_encrypted_titlekey_hex. cbn [titlekey with_titlekey].
    exact (a2b_hex_str_text key tk Hk).
Qed.

Lemma set_titlekey_then_hex_witness :
  @nil string = [] /\
  with_titlekey Sample.ticket (repeat xab 16)
  = with_titlekey Sample.ticket
      (titlekey (with_titlekey Sample.ticket (repeat xab 16))) /\
  List.length (titlekey (with_titlekey Sample.ticket (repeat xab 16)))
  = 16%nat /\
  get_encrypted_titlekey_hex (with_titlekey Sample.ticket (repeat xab 16))
  = lower "ABabABabABabABabABabABabABabABab".
Proof.
  apply (@set_titlekey_then_hex Sample.toy Sample.ticket
           "ABabABabABabABabABabABabABabABab").
  reflexivity.
Defined.

(** X12.  The hexadecimal text of a 16-byte title key is accepted by
    the setter and puts the same key back: the ticket is unchanged. *)
Theorem titlekey_hex_then_set `{W : WADGEN} (t : Ticket) :
  List.length (titlekey t) = 16%nat ->
  set_titlekey t (get_encrypted_titlekey_hex t) true = ([], Ok t).
Proof.
  intros H. unfold set_titlekey, get_encrypted_titlekey_hex.
  rewrite hexlify_length, H. cbn [Nat.mul Nat.add Nat.eqb negb].
  rewrite a2b_hex_str_hexlify. cbn [bind].
  rewrite with_titlekey_same. reflexivity.
Qed.

Lemma titlekey_hex_then_set_witness :
  set_titlekey Sample.ticket (get_encrypted_titlekey_hex Sample.ticket) true
  = ([], Ok Sample.ticket).
Proof.
  apply (@titlekey_hex_then_set Sample.toy Sample.ticket). reflexivity.
Defined.

(** X13.  Storing a plain key the way that works: when the cipher
    decrypts what it encrypts, setting (with [encrypted=True]) the
    hexadecimal text of the plain key encrypted under the ticket's own
    key and IV makes [get_decrypted_titlekey] return the plain key. *)
Theorem set_ciphertext_then_decrypt `{W : WADGEN}
        (t : Ticket) (out : list string) (k iv p : bytes) :
  get_decryption_key t = (out, Ok k) ->
  get_iv t = Ok iv ->
  List.length (encrypt_titlekey k iv p) = 16%nat ->
  decrypt_titlekey k iv (encrypt_titlekey k iv p) = p ->
  exists t',
    set_titlekey t (hexlify (encrypt_titlekey k iv p)) true = ([], Ok t') /\
    get_decrypted_titlekey t' = (out, Ok p).
Proof.
  intros Hk Hiv Hlen Hdec.
  exists (with_titlekey t (encrypt_titlekey k iv p)). split.
  - unfold set_titlekey.
    rewrite hexlify_length, Hlen. cbn [Nat.mul Nat.add Nat.eqb negb].
    rewrite a2b_hex_str_hexlify. reflexivity.
  - unfold get_decrypted_titlekey.
    change (get_decryption_key (with_titlekey t (encrypt_titlekey k iv p)))
      with (get_decryption_key t).
    change (get_iv (with_titlekey t (encrypt_titlekey k iv p)))
      with (get_iv t).
    rewrite Hk, Hiv. cbn [bind get_encrypted_titlekey titlekey with_titlekey].
    rewrite Hdec. reflexivity.
Qed.

Lemma set_ciphertext_then_decrypt_witness :
  exists t',
    set_titlekey Sample.ticket
      (hexlify (Sample.xor_cipher (repeat x01 16)
                  ([x00; x01; x00; x02; x48; x41; x43; x41] ++ zeros 8)
                  (repeat x5a 16))) true
    = ([], Ok t') /\
    get_decrypted_titlekey t' = ([], Ok (repeat x5a 16)).
Proof.
  apply (@set_ciphertext_then_decrypt Sample.toy Sample.ticket []
           (repeat x01 16)
           ([x00; x01; x00; x02; x48; x41; x43; x41] ++ zeros 8)
           (repeat x5a 16)); reflexivity.
Defined.

(** ** Title id text *)

Section TitleIdMore.

Local Open Scope string_scope.

Lemma hex_val_app (a b : string) (acc : Z) :
  all_chars is_hex a = true ->
  hex_val acc (a ++ b) = hex_val (hex_val acc a) b.
Proof.
  revert acc. induction a as [|c a IH]; intros acc H; [reflexivity|].
  cbn [all_chars] in H. apply andb_prop in H. destruct H as [Hc Ha].
  cbn [append hex_val]. unfold is_hex in Hc.
  destruct (hex_value c); [|discriminate Hc]. apply IH. exact Ha.
Qed.

Lemma is_lower_hex_is_hex (s : string) :
  all_chars is_lower_hex s = true -> all_chars is_hex s = true.
Proof.
  induction s as [|c s IH]; [reflexivity|].
  cbn [all_chars]. intros H. apply andb_prop in H. destruct H as [Hc Hs].
  rewrite (IH Hs), andb_true_r.
  destruct c as [[] [] [] [] [] [] [] []]; cbn in Hc |- *;
    first [reflexivity | discriminate Hc].
Qed.

(** Reading the fixed-width digits of a number gives the number back. *)
Lemma hex_val_lower_fixed (k : nat) :
  forall (n acc : Z),
    hex_val acc (lower (hex_fixed k n))
    = acc * 16 ^ Z.of_nat k + n mod 16 ^ Z.of_nat k.
Proof.
  induction k as [|k IH]; intros n acc.
  - cbn. rewrite Z.mod_1_r. lia.
  - cbn [hex_fixed]. rewrite lower_append.
    rewrite hex_val_app by (apply is_lower_hex_is_hex, hex_fixed_lower).
    rewrite IH. cbn [lower hex_val].
    rewrite lower_digit_value by (apply Z.mod_pos_bound; lia).
    rewrite Nat2Z.inj_succ, Z.pow_succ_r by lia.
    rewrite (Z.rem_mul_r n 16 (16 ^ Z.of_nat k)) by lia. lia.
Qed.

Lemma lstrip_length (s : string) :
  (String.length (lstrip s) <= String.length s)%nat.
Proof.
  induction s as [|c s IH]; cbn [lstrip]; [lia|].
  destruct (is_space c); cbn [String.length]; lia.
Qed.

Lemma scan_hex_bound (s : string) :
  forall (p : bool) (acc : Z) (n : nat) (v : Z) (n' : nat) (rest : string),
    0 <= acc ->
    scan_hex s p acc n = Some (v, n', rest) ->
    (n <= n' <= n + String.length s)%nat /\
    acc * 16 ^ Z.of_nat (n' - n) <= v < (acc + 1) * 16 ^ Z.of_nat (n' - n).
Proof.
  induction s as [|c s IH]; intros p acc n v n' rest Hacc H.
  - cbn in H. destruct p; [discriminate H|]. injection H as <- <- <-.
    rewrite Nat.sub_diag. cbn. lia.
  - cbn [scan_hex] in H. destruct (Ascii.eqb c "_").
    + destruct p; [discriminate H|].
      destruct (IH _ _ _ _ _ _ Hacc H) as [H1 H2].
      cbn [String.length]. split; [lia|exact H2].
    + destruct (hex_value c) as [d|] eqn:Ed.
      * destruct (hex_value_digit c d Ed) as [Hd _].
        assert (Ha : 0 <= acc * 16 + d) by lia.
        destruct (IH _ _ _ _ _ _ Ha H) as [H1 H2].
        cbn [String.length]. split; [lia|].
        replace (n' - n)%nat with (S (n' - S n)) by lia.
        rewrite Nat2Z.inj_succ, Z.pow_succ_r by lia.
        assert (0 < 16 ^ Z.of_nat (n' - S n)) by (apply Z.pow_pos_nonneg; lia).
        nia.
      * destruct p; [discriminate H|]. injection H as <- <- <-.
        rewrite Nat.sub_diag. cbn. lia.
Qed.

(** What [int(s, 16)] returns is made of at most as many digits as [s]
    has characters, one less when it is negative. *)
Lemma int_base16_bound (s : string) (v : Z) :
  int_base16 s = Ok v ->
  - 16 ^ Z.of_nat (String.length s - 1) < v < 16 ^ Z.of_nat (String.length s).
Proof.
  unfold int_base16. pose proof (lstrip_length s) as Hl.
  set (s1 := lstrip s) in *.
  set (sg := match s1 with
             | String c r =>
                 if Ascii.eqb c "-" then (true, r)
                 else if Ascii.eqb c "+" then (false, r)
                 else (false, s1)
             | EmptyString => (false, s1)
             end).
  assert (Hsg : (String.length (snd sg)
                 + (if fst sg then 1 else 0) <= String.length s1)%nat).
  { subst sg. destruct s1 as [|c r]; [cbn; lia|].
    destruct (Ascii.eqb c "-"); [cbn; lia|].
    destruct (Ascii.eqb c "+"); cbn; lia. }
  destruct sg as [negative s2]. cbn [fst snd] in Hsg.
  set (s3 := match s2 with
             | String c0 (String c1 r) =>
                 if (Ascii.eqb c0 "0"
                     && (Ascii.eqb c1 "x" || Ascii.eqb c1 "X"))%bool
                 then match r with
                      | String c2 r' => if Ascii.eqb c2 "_" then r' else r
                      | EmptyString => r
                      end
                 else s2
             | _ => s2
             end).
  assert (Hs3 : (String.length s3 <= String.length s2)%nat).
  { subst s3. destruct s2 as [|c0 [|c1 r]]; try lia.
    destruct (Ascii.eqb c0 "0" && (Ascii.eqb c1 "x" || Ascii.eqb c1 "X"))%bool;
      [|lia].
    destruct r as [|c2 r']; [cbn; lia|].
    destruct (Ascii.eqb c2 "_"); cbn; lia. }
  destruct s3 as [|c r3] eqn:E3; [discriminate|].
  destruct (Ascii.eqb c "_"); [discriminate|].
  destruct (scan_hex (String c r3) false 0 0) as [[[d n] rest]|] eqn:Esc;
    [|discriminate].
  destruct (Nat.eqb n 0 || negb (all_space rest))%bool; [discriminate|].
  intros [= <-].
  destruct (scan_hex_bound _ _ _ _ _ _ _ (Z.le_refl 0) Esc) as [Hn Hd].
  rewrite Nat.sub_0_r in Hd. cbn [Z.add] in Hd.
  assert (Hmono : forall a b : nat, (a <= b)%nat -> 16 ^ Z.of_nat a <= 16 ^ Z.of_nat b)
    by (intros a b Hab; apply Z.pow_le_mono_r; lia).
  assert (0 < 16 ^ Z.of_nat (String.length s - 1))
    by (apply Z.pow_pos_nonneg; lia).
  destruct negative.
  - pose proof (Hmono n (String.length s - 1)%nat ltac:(lia)).
    pose proof (Hmono (String.length s - 1)%nat (String.length s) ltac:(lia)).
    lia.
  - pose proof (Hmono n (String.length s) ltac:(lia)). lia.
Qed.

Lemma hexlify_app (a b : bytes) :
  hexlify (a ++ b)%list = hexlify a ++ hexlify b.
Proof.
  induction a as [|x a IH]; [reflexivity|].
  cbn [app]. rewrite !hexlify_cons, IH. reflexivity.
Qed.

(** The hexadecimal text of a big-endian integer is its fixed-width
    digits. *)
Lemma hexlify_be_encode (k : nat) :
  forall n : Z, hexlify (be_encode k n) = lower (hex_fixed (2 * k) n).
Proof.
  induction k as [|k IH]; intros n; [reflexivity|].
  rewrite be_encode_snoc, hexlify_app, IH.
  replace (2 * S k)%nat with (S (S (2 * k))) by lia.
  cbn [hex_fixed]. rewrite !lower_append, append_assoc.
  rewrite Z.div_div by lia. change (16 * 16) with 256. f_equal.
  rewrite hexlify_cons. cbn [hexlify lower append].
  rewrite byte_to_of_Z.
  rewrite <- !hex_digit_lower_upper by (apply Z.mod_pos_bound; lia).
  replace (n mod 256 / 16) with ((n / 16) mod 16)
    by (Z.div_mod_to_equations; lia).
  replace ((n mod 256) mod 16) with (n mod 16)
    by (Z.div_mod_to_equations; lia).
  reflexivity.
Qed.

End TitleIdMore.

Section TitleIdText.

Context `{W : WADGEN}.

Local Open Scope string_scope.

Lemma with_titleid_same (t : Ticket) : with_titleid t (titleid t) = t.
Proof. destruct t. reflexivity. Qed.

Lemma titleid_of_text (t : Ticket) :
  0 <= titleid t < 2 ^ 64 -> hex_val 0 (get_titleid t) = titleid t.
Proof.
  intros H. destruct (get_titleid_shape t H) as [-> _].
  rewrite hex_val_lower_fixed. change (16 ^ Z.of_nat 16) with (2 ^ 64).
  rewrite Z.mod_small by exact H. lia.
Qed.

(** X14.  Round trip getter -> setter: for a title id in the uint64
    range, giving the text of [get_titleid] back to [set_titleid] is
    accepted and leaves the ticket as it was. *)
Theorem titleid_text_roundtrip (t : Ticket) :
  0 <= titleid t < 2 ^ 64 ->
  set_titleid t (get_titleid t) = Ok t.
Proof.
  intros H. destruct (get_titleid_shape t H) as (_ & Hlen & Hlow).
  unfold set_titleid. rewrite Hlen. cbn [Nat.eqb negb].
  rewrite int_base16_digits.
  - cbn [bind]. rewrite (titleid_of_text t H), with_titleid_same. reflexivity.
  - apply is_lower_hex_is_hex. exact Hlow.
  - intros E. rewrite E in Hlen. discriminate Hlen.
Qed.

(** X15.  Round trip setter -> getter: sixteen hexadecimal digits in
    either case are accepted, only the title id changes, the stored
    number is in the uint64 range and the getter returns the digits in
    lower case. *)
Theorem set_titleid_then_get (t : Ticket) (tid : string) :
  all_chars is_hex tid = true ->
  String.length tid = 16%nat ->
  exists t',
    set_titleid t tid = Ok t' /\
    t' = with_titleid t (titleid t') /\
    0 <= titleid t' < 2 ^ 64 /\
    get_titleid t' = lower tid.
Proof.
  intros Hhex Hlen.
  destruct (set_titleid_hex16 t tid Hhex Hlen) as (Hs & Hr & Hg).
  exists (with_titleid t (hex_val 0 tid)).
  split; [exact Hs|]. split; [reflexivity|]. split; [exact Hr|exact Hg].
Qed.

(** X16.  The text of the title id determines the title id: two tickets
    with uint64 title ids and the same [get_titleid] text have the same
    title id. *)
Theorem get_titleid_injective (t1 t2 : Ticket) :
  0 <= titleid t1 < 2 ^ 64 ->
  0 <= titleid t2 < 2 ^ 64 ->
  get_titleid t1 = get_titleid t2 ->
  titleid t1 = titleid t2.
Proof.
  intros H1 H2 E.
  rewrite <- (titleid_of_text t1 H1), <- (titleid_of_text t2 H2), E.
  reflexivity.
Qed.

(** X17.  Whatever string [set_titleid] accepts, only the title id
    changes, and the stored number is below 2^64 and above -16^15: the
    sixteen characters hold at most sixteen digits, fifteen after a
    sign. *)
Theorem set_titleid_bounds (t t' : Ticket) (tid : string) :
  set_titleid t tid = Ok t' ->
  String.length tid = 16%nat /\
  t' = with_titleid t (titleid t') /\
  - 16 ^ 15 < titleid t' < 2 ^ 64.
Proof.
  unfold set_titleid.
  destruct (Nat.eqb (String.length tid) 16) eqn:El; cbn [negb];
    [|discriminate].
  apply Nat.eqb_eq in El.
  destruct (int_base16 tid) as [v|e] eqn:Ei; cbn [bind]; [|discriminate].
  intros [= <-]. split; [exact El|]. split; [reflexivity|].
  pose proof (int_base16_bound tid v Ei) as Hb. rewrite El in Hb.
  cbn [titleid with_titleid].
  change (Z.of_nat (16 - 1)) with 15 in Hb.
  change (16 ^ Z.of_nat 16) with (2 ^ 64) in Hb. exact Hb.
Qed.

(** X18.  For a title id in the uint64 range the hexadecimal
    initialization vector is the title id text followed by sixteen
    zeros. *)
Theorem get_iv_hex_titleid (t : Ticket) :
  0 <= titleid t < 2 ^ 64 ->
  get_iv_hex t = Ok (get_titleid t ++ "0000000000000000").
Proof.
  intros H. destruct (get_titleid_shape t H) as [-> _].
  unfold get_iv_hex, get_iv. rewrite (struct_pack_uint_ok F_iv 8) by exact H.
  cbn [bind]. rewrite hexlify_app, hexlify_be_encode. reflexivity.
Qed.

(** X19.  For a negative title id [get_iv] and [get_iv_hex] raise
    struct.error, while [get_titleid] still returns a text, which
    begins with a minus sign. *)
Theorem negative_titleid_text (t : Ticket) :
  titleid t < 0 ->
  get_iv t = Err (struct_error F_iv) /\
  get_iv_hex t = Err (struct_error F_iv) /\
  startswith (get_titleid t) "-" = true.
Proof.
  intros H. unfold get_iv_hex, get_iv, struct_pack_uint.
  destruct (Z.leb_spec 0 (titleid t)) as [|_]; [lia|]. cbn [andb bind].
  repeat split. unfold get_titleid, format_08X.
  destruct (Z.ltb_spec (titleid t) 0) as [_|]; [|lia].
  remember (lpad0 7 (hex_upper (- titleid t))) as body.
  unfold zfill. cbn [Ascii.eqb Bool.eqb orb lower].
  change (lower_char "-") with "-"%char.
  unfold startswith. cbn [String.prefix].
  destruct (ascii_dec "-" "-") as [_|Hne]; [|contradiction Hne; reflexivity].
  destruct (lower _); reflexivity.
Qed.

Lemma py_index_In {A} (l : list A) (i : Z) (x : A) :
  py_index l i = Some x -> In x l.
Proof.
  unfold py_index.
  destruct (_ && _)%bool; [apply nth_error_In|].
  destruct (_ && _)%bool; [apply nth_error_In|discriminate].
Qed.

(** X20.  [get_common_key_type] answers DSi exactly for the title ids
    from 0x0003000000000000 up to, not including, 0x0003100000000000,
    whatever the common key index is. *)
Theorem dsi_name_range (t : Ticket) :
  0 <= titleid t < 2 ^ 64 ->
  get_common_key_type t = "DSi"
  <-> 844424930131968 <= titleid t < 862017116176384.
Proof.
  intros H. pose proof (dsi_prefix_numeric t H) as Hp.
  assert (Hr : titleid t / 2 ^ 44 = 48
               <-> 844424930131968 <= titleid t < 862017116176384).
  { change (2 ^ 44) with 17592186044416. split; intros Hq.
    - Z.div_mod_to_equations. lia.
    - Z.div_mod_to_equations. lia. }
  rewrite <- Hr, <- Hp. unfold get_common_key_type.
  destruct (startswith (get_titleid t) "00030"); [tauto|].
  split; [|discriminate]. intros E.
  destruct (py_index key_types (ckeyindex t)) as [name|] eqn:Ei;
    [|discriminate E].
  apply py_index_In in Ei. subst name.
  unfold key_types in Ei. cbn [In] in Ei.
  destruct Ei as [Ei|[Ei|[Ei|[]]]]; discriminate Ei.
Qed.

End TitleIdText.

Lemma titleid_text_roundtrip_witness :
  set_titleid Sample.ticket (get_titleid Sample.ticket) = Ok Sample.ticket.
Proof. apply titleid_text_roundtrip. vm_compute. split; [discriminate|reflexivity]. Defined.

Lemma set_titleid_then_get_witness :
  exists t' : @Ticket Sample.toy,
    set_titleid Sample.ticket "00010002484143AB" = Ok t' /\
    t' = with_titleid Sample.ticket (titleid t') /\
    0 <= titleid t' < 2 ^ 64 /\
    get_titleid t' = "00010002484143ab"%string.
Proof. apply (set_titleid_then_get Sample.ticket "00010002484143AB"); reflexivity. Defined.

Lemma get_titleid_injective_witness :
  titleid Sample.ticket = titleid (with_padding Sample.ticket 7).
Proof.
  apply get_titleid_injective.
  - vm_compute. split; [discriminate|reflexivity].
  - vm_compute. split; [discriminate|reflexivity].
  - reflexivity.
Defined.

Lemma set_titleid_bounds_witness :
  String.length "-000000000000001" = 16%nat /\
  with_titleid Sample.ticket (-1)
  = with_titleid Sample.ticket (titleid (with_titleid Sample.ticket (-1))) /\
  - 16 ^ 15 < titleid (with_titleid Sample.ticket (-1)) < 2 ^ 64.
Proof.
  apply (set_titleid_bounds Sample.ticket (with_titleid Sample.ticket (-1))
           "-000000000000001").
  reflexivity.
Defined.

Lemma get_iv_hex_titleid_witness :
  get_iv_hex Sample.ticket
  = Ok (get_titleid Sample.ticket ++ "0000000000000000")%string.
Proof. apply get_iv_hex_titleid. vm_compute. split; [discriminate|reflexivity]. Defined.

Lemma negative_titleid_text_witness :
  get_iv (with_titleid Sample.ticket (-1)) = Err (struct_error F_iv) /\
  get_iv_hex (with_titleid Sample.ticket (-1)) = Err (struct_error F_iv) /\
  startswith (get_titleid (with_titleid Sample.ticket (-1))) "-" = true.
Proof. apply negative_titleid_text. reflexivity. Defined.

Lemma dsi_name_range_witness :
  get_common_key_type Sample.dsi_ticket = "DSi"%string
  <-> 844424930131968 <= titleid Sample.dsi_ticket < 862017116176384.
Proof. apply dsi_name_range. vm_compute. split; [discriminate|reflexivity]. Defined.

(** ** Common keys and certificates by index *)

Section KeysMore.

Context `{W : WADGEN}.

Lemma py_index_nonneg {A} (l : list A) (i : Z) :
  0 <= i < Z.of_nat (List.length l) ->
  py_index l i = nth_error l (Z.to_nat i).
Proof.
  intros H. unfold py_index.
  destruct (Z.leb_spec 0 i); [|lia].
  destruct (Z.ltb_spec i (Z.of_nat (List.length l))); [|lia].
  reflexivity.
Qed.

Lemma py_index_negative {A} (l : list A) (i : Z) :
  - Z.of_nat (List.length l) <= i < 0 ->
  py_index l i = py_index l (Z.of_nat (List.length l) + i).
Proof.
  intros H. rewrite (py_index_nonneg l (Z.of_nat (List.length l) + i)) by lia.
  unfold py_index.
  destruct (Z.leb_spec 0 i); [lia|]. cbn [andb].
  destruct (Z.leb_spec (- Z.of_nat (List.length l)) i); [|lia].
  destruct (Z.ltb_spec i 0); [|lia]. reflexivity.
Qed.

Lemma py_index_some {A} (l : list A) (i : Z) :
  (exists x, py_index l i = Some x)
  <-> - Z.of_nat (List.length l) <= i < Z.of_nat (List.length l).
Proof.
  split.
  - intros [x Hx].
    destruct (Z_lt_le_dec i (- Z.of_nat (List.length l))) as [Hlo|Hlo];
      [rewrite py_index_out_of_range in Hx by lia; discriminate Hx|].
    destruct (Z_lt_le_dec i (Z.of_nat (List.length l))) as [Hhi|Hhi];
      [lia|].
    rewrite py_index_out_of_range in Hx by lia. discriminate Hx.
  - intros H.
    assert (Hn : forall j, 0 <= j < Z.of_nat (List.length l) ->
                           exists x, py_index l j = Some x).
    { intros j Hj. rewrite py_index_nonneg by exact Hj.
      destruct (nth_error l (Z.to_nat j)) as [x|] eqn:E; [exists x; reflexivity|].
      apply nth_error_None in E. lia. }
    destruct (Z_lt_le_dec i 0) as [Hneg|Hpos].
    + rewrite py_index_negative by lia. apply Hn. lia.
    + apply Hn. lia.
Qed.

(** X21.  After a successful [set_common_key_index t i] on a ticket that
    is not a DSi one, with a key table of at least three keys, the key
    is entry [i] of the table, nothing is printed, and the name is
    entry [i] of Normal, Korean, Wii U Wii Mode. *)
Theorem set_common_key_index_selects (t t' : Ticket) (i : Z) :
  (3 <= List.length DECRYPTION_KEYS)%nat ->
  startswith (get_titleid t) "00030" = false ->
  set_common_key_index t i = Ok t' ->
  0 <= i <= 2 /\
  (exists k, nth_error DECRYPTION_KEYS (Z.to_nat i) = Some k /\
             get_decryption_key t' = ([], Ok k)) /\
  nth_error key_types (Z.to_nat i) = Some (get_common_key_type t') /\
  get_common_key_type t' <> "Unknown"%string.
Proof.
  intros Hlen Hnd. unfold set_common_key_index.
  destruct (Z.leb_spec 0 i) as [H0|]; [|discriminate].
  destruct (Z.leb_spec i 2) as [H2|]; [|discriminate].
  cbn [andb negb]. intros [= <-]. split; [lia|].
  unfold get_decryption_key, get_common_key_type.
  change (get_titleid (with_ckeyindex t i)) with (get_titleid t).
  rewrite Hnd. cbn [ckeyindex with_ckeyindex].
  rewrite (py_index_nonneg DECRYPTION_KEYS i) by lia.
  rewrite (py_index_nonneg key_types i) by (cbn; lia).
  split.
  - destruct (nth_error DECRYPTION_KEYS (Z.to_nat i)) as [k|] eqn:E.
    + exists k. split; reflexivity.
    + apply nth_error_None in E. lia.
  - assert (Hi : i = 0 \/ i = 1 \/ i = 2) by lia.
    destruct Hi as [-> | [-> | ->]]; cbn; split; first [reflexivity|discriminate].
Qed.

(** X22.  [get_decryption_key] returns a key unless the ticket is not a
    DSi one and the key table is empty (the IndexError of the fallback
    is not caught); the key is DSI_KEY or an entry of the table, and at
    most the one warning is printed. *)
Theorem get_decryption_key_total (t : Ticket) :
  ((exists out k, get_decryption_key t = (out, Ok k))
   <-> startswith (get_titleid t) "00030" = true \/ DECRYPTION_KEYS <> []) /\
  (forall out k,
      get_decryption_key t = (out, Ok k) ->
      (k = DSI_KEY \/ In k DECRYPTION_KEYS) /\
      (out = [] \/ out = [unknown_key_warning])) /\
  (forall out e,
      get_decryption_key t = (out, Err e) ->
      out = [unknown_key_warning] /\ e = IndexError).
Proof.
  unfold get_decryption_key.
  destruct (startswith (get_titleid t) "00030").
  { split; [|split].
    - split; [left; reflexivity|]. intros _. exists [], DSI_KEY. reflexivity.
    - intros out k [= <- <-]. split; left; reflexivity.
    - intros out e H. discriminate H. }
  destruct (py_index DECRYPTION_KEYS (ckeyindex t)) as [k0|] eqn:E.
  { pose proof (py_index_In _ _ _ E) as Hin. split; [|split].
    - split.
      + intros _. right. intros En. rewrite En in Hin. exact Hin.
      + intros _. exists [], k0. reflexivity.
    - intros out k [= <- <-]. split; [right; exact Hin|left; reflexivity].
    - intros out e H. discriminate H. }
  destruct (py_index DECRYPTION_KEYS 0) as [k0|] eqn:E0.
  { pose proof (py_index_In _ _ _ E0) as Hin. split; [|split].
    - split.
      + intros _. right. intros En. rewrite En in Hin. exact Hin.
      + intros _. exists [unknown_key_warning], k0. reflexivity.
    - intros out k [= <- <-]. split; [right; exact Hin|right; reflexivity].
    - intros out e H. discriminate H. }
  split; [|split].
  - split.
    + intros (out & k & H). discriminate H.
    + intros [H|H]; [discriminate H|].
      destruct DECRYPTION_KEYS as [|k0 r]; [contradiction H; reflexivity|].
      discriminate E0.
  - intros out k H. discriminate H.
  - intros out e [= <- <-]. split; reflexivity.
Qed.

(** X23.  [get_certificate] follows Python's indexing: it returns a
    certificate exactly for the indices from [-n] to [n-1], where [n] is
    the number of certificates, raises IndexError otherwise, and a
    negative index [i] names the same certificate as [n + i]. *)
Theorem get_certificate_bounds (t : Ticket) (i : Z) :
  let n := Z.of_nat (List.length (certificates t)) in
  ((exists c, get_certificate t i = Ok c) <-> - n <= i < n) /\
  (~ (- n <= i < n) -> get_certificate t i = Err IndexError) /\
  (- n <= i < 0 -> get_certificate t i = get_certificate t (n + i)) /\
  (forall c, get_certificate t i = Ok c -> In c (certificates t)).
Proof.
  intros n. unfold get_certificate, get_certificates. subst n.
  split; [|split; [|split]].
  - rewrite <- py_index_some. split.
    + intros [c Hc]. destruct (py_index (certificates t) i) as [x|];
        [exists x; reflexivity|discriminate Hc].
    + intros [c Hc]. rewrite Hc. exists c. reflexivity.
  - intros H. rewrite py_index_out_of_range by lia. reflexivity.
  - intros H. rewrite py_index_negative by exact H. reflexivity.
  - intros c Hc. destruct (py_index (certificates t) i) as [x|] eqn:E;
      [|discriminate Hc].
    injection Hc as <-. exact (py_index_In _ _ _ E).
Qed.

(** X24.  The checked setters keep a valid ticket valid: after a
    successful [set_titleversion], [set_common_key_index] or
    [set_titlekey] with an encrypted key, every integer field still
    fits its format and every byte field still has its width. *)
Theorem setters_keep_valid (t : Ticket) :
  valid t ->
  (forall ver t', set_titleversion t ver = Ok t' -> valid t') /\
  (forall i t', set_common_key_index t i = Ok t' -> valid t') /\
  (forall key out t', set_titlekey t key true = (out, Ok t') -> valid t').
Proof.
  intros (Hp & Hs & Hsig & Hce). split; [|split].
  - intros ver t'. unfold set_titleversion.
    destruct (Z.leb_spec 0 ver); [|discriminate].
    destruct (Z.leb_spec ver 65535); [|discriminate].
    cbn [andb negb]. intros [= <-].
    unfold valid, packable, well_sized in *. cbn.
    repeat split; try tauto; lia.
  - intros i t'. unfold set_common_key_index.
    destruct (Z.leb_spec 0 i); [|discriminate].
    destruct (Z.leb_spec i 2); [|discriminate].
    cbn [andb negb]. intros [= <-].
    unfold valid, packable, well_sized in *. cbn.
    repeat split; try tauto; lia.
  - intros key out t'. unfold set_titlekey.
    destruct (Nat.eqb (String.length key) 32) eqn:El; cbn [negb];
      [|discriminate].
    apply Nat.eqb_eq in El.
    destruct (a2b_hex_str key) as [tk|e] eqn:Ea; cbn [bind]; [|discriminate].
    intros [= <- <-].
    pose proof (a2b_hex_str_length key tk Ea) as Hl. rewrite El in Hl.
    unfold valid, packable, well_sized in *. cbn.
    repeat split; try tauto; lia.
Qed.

End KeysMore.

Lemma set_common_key_index_selects_witness :
  0 <= 1 <= 2 /\
  (exists k, nth_error (@DECRYPTION_KEYS Sample.toy) (Z.to_nat 1) = Some k /\
             get_decryption_key (with_ckeyindex Sample.ticket 1) = ([], Ok k)) /\
  nth_error key_types (Z.to_nat 1)
  = Some (get_common_key_type (with_ckeyindex Sample.ticket 1)) /\
  get_common_key_type (with_ckeyindex Sample.ticket 1) <> "Unknown"%string.
Proof.
  apply (set_common_key_index_selects Sample.ticket
           (with_ckeyindex Sample.ticket 1) 1).
  - cbn. lia.
  - reflexivity.
  - reflexivity.
Defined.

Lemma setters_keep_valid_witness :
  (forall ver t', set_titleversion Sample.ticket ver = Ok t' -> valid t') /\
  (forall i t', set_common_key_index Sample.ticket i = Ok t' -> valid t') /\
  (forall key out t',
      set_titlekey Sample.ticket key true = (out, Ok t') -> valid t').
Proof. apply setters_keep_valid. exact sample_ticket_valid. Defined.

(** ** Issuers and certificates by name *)

Section Issuers.

Lemma rstrip_nul_zeros_only (k : nat) : rstrip_nul (zeros k) = [].
Proof.
  induction k as [|k IH]; [reflexivity|].
  unfold zeros in *. cbn [repeat rstrip_nul]. rewrite IH. reflexivity.
Qed.

(** Trailing NUL bytes do not change what [rstrip] returns. *)
Lemma rstrip_nul_zeros (b : bytes) (k : nat) :
  rstrip_nul (b ++ zeros k) = rstrip_nul b.
Proof.
  induction b as [|x b IH].
  - apply rstrip_nul_zeros_only.
  - cbn [app rstrip_nul]. rewrite IH. reflexivity.
Qed.

Lemma byte_eqb_x00 (x : byte) : Byte.eqb x x00 = true -> x = x00.
Proof. intros H. apply Byte.byte_dec_bl. exact H. Qed.

(** [rstrip] only removes NUL bytes from the end. *)
Lemma rstrip_nul_prefix (b : bytes) :
  b = rstrip_nul b ++ zeros (List.length b - List.length (rstrip_nul b)).
Proof.
  induction b as [|x b IH]; [reflexivity|].
  cbn [rstrip_nul]. destruct (rstrip_nul b) as [|y r'] eqn:E.
  - cbn [List.length app Nat.sub] in IH.
    rewrite Nat.sub_0_r in IH.
    destruct (Byte.eqb x x00) eqn:Ex.
    + apply byte_eqb_x00 in Ex. subst x. cbn [List.length app Nat.sub].
      unfold zeros in *. cbn [repeat]. rewrite <- IH. reflexivity.
    + cbn [List.length app].
      replace (S (List.length b) - 1)%nat with (List.length b) by lia.
      rewrite <- IH. reflexivity.
  - cbn [List.length app] in IH |- *.
    replace (S (List.length b) - S (S (List.length r')))%nat
      with (List.length b - S (List.length r'))%nat by lia.
    rewrite <- IH. reflexivity.
Qed.

(** The bytes [rstrip] returns do not end in NUL. *)
Lemma rstrip_nul_last (b l : bytes) (x : byte) :
  rstrip_nul b = l ++ [x] -> x <> x00.
Proof.
  revert l. induction b as [|y b IH]; intros l H.
  - destruct l; discriminate H.
  - cbn [rstrip_nul] in H. destruct (rstrip_nul b) as [|z r'] eqn:E.
    + destruct (Byte.eqb y x00) eqn:Ey; [destruct l; discriminate H|].
      destruct l as [|a [|a' l]]; try discriminate H.
      injection H as <-. intros ->. discriminate Ey.
    + destruct l as [|a l]; [discriminate H|].
      injection H as _ H. exact (IH l H).
Qed.

Lemma decode_utf8_ascii (b : bytes) :
  Forall (fun x => byte_to_Z x < 128) b ->
  decode_utf8 b = Ok (map byte_to_Z b).
Proof.
  induction 1 as [|x b Hx Hb IH]; [reflexivity|].
  cbn [decode_utf8 map]. destruct (Z.ltb_spec (byte_to_Z x) 128); [|lia].
  rewrite IH. reflexivity.
Qed.

Lemma split_on_nonempty (sep : Z) (s : unicode) :
  exists p ps, split_on sep s = p :: ps.
Proof.
  destruct s as [|c r]; cbn [split_on]; [eauto|].
  destruct (c =? sep); eauto.
Qed.

(** [sep.join(s.split(sep)) == s] *)
Lemma join_split (sep : Z) (s : unicode) :
  join_with sep (split_on sep s) = s.
Proof.
  induction s as [|c r IH]; [reflexivity|].
  cbn [split_on]. destruct (split_on_nonempty sep r) as (p & ps & E).
  rewrite E in IH |- *. destruct (Z.eqb_spec c sep) as [->|Hne].
  - cbn [join_with app] in IH |- *. rewrite IH. reflexivity.
  - cbn [hd tl]. destruct ps as [|q ps].
    + cbn [join_with] in IH |- *. rewrite IH. reflexivity.
    + cbn [join_with app] in IH |- *. rewrite <- IH. reflexivity.
Qed.

Lemma split_on_no_sep (sep : Z) (s : unicode) :
  Forall (fun p => ~ In sep p) (split_on sep s).
Proof.
  induction s as [|c r IH]; [repeat constructor; intros []|].
  cbn [split_on]. destruct (split_on_nonempty sep r) as (p & ps & E).
  rewrite E in IH |- *. inversion IH as [|? ? Hp Hps]; subst.
  destruct (Z.eqb_spec c sep) as [->|Hne].
  - constructor; [intros []|]. constructor; assumption.
  - cbn [hd tl]. constructor; [|assumption].
    intros [H|H]; [congruence|exact (Hp H)].
Qed.

Lemma byte_is_hyphen (y : byte) : (byte_to_Z y =? 45) = Byte.eqb y x2d.
Proof. destruct y; reflexivity. Qed.

Lemma split_on_hyphen_length (b : bytes) :
  List.length (split_on 45 (map byte_to_Z b)) = S (count_byte x2d b).
Proof.
  induction b as [|y b IH]; [reflexivity|].
  cbn [map split_on count_byte].
  destruct (split_on_nonempty 45 (map byte_to_Z b)) as (p & ps & E).
  rewrite E in IH |- *. rewrite byte_is_hyphen.
  destruct (Byte.eqb y x2d); cbn [List.length hd tl] in IH |- *; lia.
Qed.

Lemma count_byte_app (x : byte) (a b : bytes) :
  count_byte x (a ++ b) = (count_byte x a + count_byte x b)%nat.
Proof.
  induction a as [|y a IH]; [reflexivity|].
  cbn [app count_byte]. rewrite IH. lia.
Qed.

Lemma count_hyphen_zeros (k : nat) : count_byte x2d (zeros k) = 0%nat.
Proof.
  induction k as [|k IH]; [reflexivity|].
  unfold zeros in *. cbn [repeat count_byte]. rewrite IH. reflexivity.
Qed.

Lemma count_hyphen_rstrip (b : bytes) :
  count_byte x2d (rstrip_nul b) = count_byte x2d b.
Proof.
  rewrite (rstrip_nul_prefix b) at 2.
  rewrite count_byte_app, count_hyphen_zeros. lia.
Qed.

Lemma Forall_rstrip_nul (P : byte -> Prop) (b : bytes) :
  Forall P b -> Forall P (rstrip_nul b).
Proof.
  intros H. rewrite (rstrip_nul_prefix b) in H.
  apply Forall_app in H. tauto.
Qed.

Lemma ucons_err (c : Z) (e : exn) : ucons c (Err e) = Err e.
Proof. reflexivity. Qed.

(** A byte from 0xF5 on is neither a lead byte nor a continuation byte:
    wherever it stands, decoding fails. *)
Lemma decode_utf8_invalid_byte (x : byte) (n : nat) :
  245 <= byte_to_Z x ->
  forall b, (List.length b <= n)%nat -> In x b ->
            decode_utf8 b = Err UnicodeDecodeError.
Proof.
  intros Hx. induction n as [|n IH]; intros b Hn Hin.
  - destruct b; [destruct Hin|cbn in Hn; lia].
  - destruct b as [|b0 r0]; [destruct Hin|].
    cbn [List.length] in Hn. cbn [decode_utf8].
    assert (Hc : forall y c, y = x -> c = byte_to_Z y ->
                             is_continuation c = false).
    { intros y c -> ->. unfold is_continuation.
      destruct (Z.leb_spec (byte_to_Z x) 191); [lia|].
      apply andb_false_r. }
    destruct Hin as [->|Hin].
    { destruct (Z.ltb_spec (byte_to_Z x) 128); [lia|].
      destruct (Z.leb_spec (byte_to_Z x) 223); [lia|]. rewrite andb_false_r.
      destruct (Z.leb_spec (byte_to_Z x) 239); [lia|]. rewrite andb_false_r.
      destruct (Z.leb_spec (byte_to_Z x) 244); [lia|]. rewrite andb_false_r.
      reflexivity. }
    destruct (byte_to_Z b0 <? 128).
    { rewrite (IH r0) by (assumption || lia). reflexivity. }
    destruct ((194 <=? byte_to_Z b0) && (byte_to_Z b0 <=? 223)).
    { destruct r0 as [|b1 r1]; [reflexivity|]. cbn [List.length] in Hn.
      destruct Hin as [E|Hin].
      - rewrite (Hc b1 _ E eq_refl). reflexivity.
      - destruct (is_continuation (byte_to_Z b1)); [|reflexivity].
        rewrite (IH r1) by (assumption || lia). reflexivity. }
    destruct ((224 <=? byte_to_Z b0) && (byte_to_Z b0 <=? 239)).
    { destruct r0 as [|b1 [|b2 r2]]; try reflexivity.
      cbn [List.length] in Hn.
      destruct Hin as [E|[E|Hin]].
      - subst b1.
        destruct (Z.leb_spec (byte_to_Z x)
                    (if byte_to_Z b0 =? 237 then 159 else 191)) as [Hle|_];
          [destruct (byte_to_Z b0 =? 237); lia|].
        rewrite andb_false_r. reflexivity.
      - rewrite (Hc b2 _ E eq_refl), andb_false_r. reflexivity.
      - destruct (_ && _ && _); [|reflexivity].
        rewrite (IH r2) by (assumption || lia). reflexivity. }
    destruct ((240 <=? byte_to_Z b0) && (byte_to_Z b0 <=? 244)); [|reflexivity].
    destruct r0 as [|b1 [|b2 [|b3 r3]]]; try reflexivity.
    cbn [List.length] in Hn.
    destruct Hin as [E|[E|[E|Hin]]].
    + subst b1.
      destruct (Z.leb_spec (byte_to_Z x)
                  (if byte_to_Z b0 =? 244 then 143 else 191)) as [Hle|_];
        [destruct (byte_to_Z b0 =? 244); lia|].
      rewrite andb_false_r. reflexivity.
    + rewrite (Hc b2 _ E eq_refl), andb_false_r. reflexivity.
    + rewrite (Hc b3 _ E eq_refl), andb_false_r. reflexivity.
    + destruct (_ && _ && _ && _); [|reflexivity].
      rewrite (IH r3) by (assumption || lia). reflexivity.
Qed.

Context `{W : WADGEN}.

(** X25.  For an issuer field of ASCII bytes, [get_issuers] returns the
    text before the trailing NUL bytes cut at the hyphens: one part more
    than there are hyphens, no hyphen in any part, and joining the parts
    with hyphens gives the text back. *)
Theorem get_issuers_ascii (t : Ticket) :
  Forall (fun x => byte_to_Z x < 128) (issuer t) ->
  exists parts,
    get_issuers t = Ok parts /\
    join_with 45 parts = map byte_to_Z (rstrip_nul (issuer t)) /\
    List.length parts = S (count_byte x2d (issuer t)) /\
    Forall (fun p => ~ In 45 p) parts.
Proof.
  intros H. unfold get_issuers.
  rewrite (decode_utf8_ascii _ (Forall_rstrip_nul _ _ H)). cbn [bind].
  eexists. split; [reflexivity|]. split; [apply join_split|].
  split; [|apply split_on_no_sep].
  rewrite split_on_hyphen_length. f_equal. apply count_hyphen_rstrip.
Qed.

(** X26.  NUL bytes at the end of the issuer field are not seen by
    [get_issuers]: two tickets whose issuers differ by trailing NUL
    bytes have the same issuers. *)
Theorem get_issuers_padding (t t' : Ticket) (k : nat) :
  issuer t' = issuer t ++ zeros k ->
  get_issuers t' = get_issuers t.
Proof.
  intros H. unfold get_issuers. rewrite H, rstrip_nul_zeros. reflexivity.
Qed.

(** X27.  An issuer field that holds a byte from 0xF5 on, anywhere,
    makes [get_issuers] raise UnicodeDecodeError. *)
Theorem get_issuers_invalid_byte (t : Ticket) (x : byte) :
  In x (issuer t) ->
  245 <= byte_to_Z x ->
  get_issuers t = Err UnicodeDecodeError.
Proof.
  intros Hin Hx. unfold get_issuers.
  rewrite (decode_utf8_invalid_byte x (List.length (rstrip_nul (issuer t))) Hx);
    [reflexivity|lia|].
  rewrite (rstrip_nul_prefix (issuer t)) in Hin.
  apply in_app_or in Hin. destruct Hin as [Hin|Hin]; [exact Hin|].
  apply repeat_spec in Hin. subst x. cbn in Hx. lia.
Qed.

End Issuers.

Section CertByName.

Context `{N : WADGEN_names}.

Local Open Scope string_scope.

Lemma find_cert_none (certs : list Certificate) (name : string) :
  find_cert certs name = None
  <-> Forall (fun c => Certificate_get_name c <> name) certs.
Proof.
  induction certs as [|c r IH]; cbn [find_cert].
  - split; [constructor|reflexivity].
  - destruct (String.eqb_spec (Certificate_get_name c) name) as [E|E].
    + split; [discriminate|]. intros H. inversion H. contradiction.
    + rewrite IH. split.
      * intros H. constructor; assumption.
      * intros H. inversion H. assumption.
Qed.

Lemma find_cert_first (pre post : list Certificate) (c : Certificate)
      (name : string) :
  Forall (fun c' => Certificate_get_name c' <> name) pre ->
  Certificate_get_name c = name ->
  find_cert (pre ++ c :: post) name = Some c.
Proof.
  intros Hpre Hc. induction Hpre as [|c' pre Hc' Hpre IH]; cbn [app find_cert].
  - rewrite Hc, String.eqb_refl. reflexivity.
  - destruct (String.eqb_spec (Certificate_get_name c') name); [contradiction|].
    exact IH.
Qed.

Lemma find_cert_some (certs : list Certificate) (name : string)
      (c : Certificate) :
  find_cert certs name = Some c ->
  exists pre post,
    certs = (pre ++ c :: post)%list /\
    Forall (fun c' => Certificate_get_name c' <> name) pre /\
    Certificate_get_name c = name.
Proof.
  induction certs as [|c' r IH]; cbn [find_cert]; [discriminate|].
  destruct (String.eqb_spec (Certificate_get_name c') name) as [E|E].
  - intros [= <-]. exists [], r. repeat split; [constructor|exact E].
  - intros H. destruct (IH H) as (pre & post & -> & Hpre & Hc).
    exists (c' :: pre), post. repeat split; [constructor; assumption|exact Hc].
Qed.

(** X28.  [get_cert_by_name] returns the first certificate of the
    ticket that has the name, and only such a one: also for the name
    Root, where a certificate of the ticket comes before ROOT_KEY. *)
Theorem get_cert_by_name_first_match (t : Ticket) (name : string)
        (c : Certificate) :
  get_cert_by_name t name = Ok (inl c)
  <-> exists pre post,
      certificates t = (pre ++ c :: post)%list /\
      Forall (fun c' => Certificate_get_name c' <> name) pre /\
      Certificate_get_name c = name.
Proof.
  unfold get_cert_by_name, get_certificates. split.
  - destruct (find_cert (certificates t) name) as [c'|] eqn:E.
    + intros [= <-]. exact (find_cert_some _ _ _ E).
    + destruct (String.eqb name "Root"); [destruct ROOT_KEY|]; discriminate.
  - intros (pre & post & -> & Hpre & Hc).
    rewrite (find_cert_first pre post c name Hpre Hc). reflexivity.
Qed.

(** X29.  When no certificate of the ticket has the name,
    [get_cert_by_name] returns ROOT_KEY for the name Root if a root key
    is installed, and raises ValueError with the name in its message
    otherwise; it does neither when a certificate has the name. *)
Theorem get_cert_by_name_fallback (t : Ticket) (name : string) :
  let missing :=
    Forall (fun c => Certificate_get_name c <> name) (certificates t) in
  (forall k, get_cert_by_name t name = Ok (inr k)
             <-> missing /\ name = "Root" /\ ROOT_KEY = Some k) /\
  (forall e, get_cert_by_name t name = Err e
             <-> missing /\ (name <> "Root" \/ ROOT_KEY = None)
                 /\ e = not_found name).
Proof.
  intros missing. subst missing.
  pose proof (find_cert_none (certificates t) name) as Hm.
  unfold get_cert_by_name, get_certificates.
  destruct (find_cert (certificates t) name) as [c|].
  { assert (Hno : ~ Forall (fun c => Certificate_get_name c <> name)
                      (certificates t))
      by (intros H; apply Hm in H; discriminate H).
    split; intros x; (split; [discriminate|intros [H _]; contradiction]). }
  assert (Hall : Forall (fun c => Certificate_get_name c <> name)
                   (certificates t)) by (apply Hm; reflexivity).
  destruct (String.eqb_spec name "Root") as [->|Hne].
  - destruct ROOT_KEY as [k0|].
    + split.
      * intros k. split; [intros [= <-]; auto|].
        intros (_ & _ & [= <-]). reflexivity.
      * intros e. split; [discriminate|].
        intros (_ & [H|H] & _); [contradiction H; reflexivity|discriminate H].
    + split.
      * intros k. split; [discriminate|]. intros (_ & _ & H). discriminate H.
      * intros e. split; [intros [= <-]; auto|].
        intros (_ & _ & ->). reflexivity.
  - split.
    + intros k. split; [discriminate|]. intros (_ & H & _). contradiction.
    + intros e. split; [intros [= <-]; auto|].
      intros (_ & _ & ->). reflexivity.
Qed.

End CertByName.

Lemma get_issuers_ascii_witness :
  exists parts,
    @get_issuers Sample.toy SampleNames.issued = Ok parts /\
    join_with 45 parts
    = map byte_to_Z (rstrip_nul (issuer SampleNames.issued)) /\
    List.length parts = S (count_byte x2d (issuer SampleNames.issued)) /\
    Forall (fun p => ~ In 45 p) parts.
Proof.
  apply (get_issuers_ascii SampleNames.issued).
  repeat (constructor; [reflexivity|]). constructor.
Defined.

Lemma get_issuers_padding_witness :
  @get_issuers Sample.toy SampleNames.issued
  = get_issuers
      (@mkTicket Sample.toy xaa (ascii_bytes "Root-CA00000001-XS00000003")
         [] [] [] [] [] 0 0 [] 0 0 0 false 0 [] [] 0 [] []).
Proof. apply (get_issuers_padding _ _ 38). reflexivity. Defined.

Lemma get_issuers_invalid_byte_witness :
  get_issuers
    (@mkTicket Sample.toy xaa [x52; xff; x00]
       [] [] [] [] [] 0 0 [] 0 0 0 false 0 [] [] 0 [] [])
  = Err UnicodeDecodeError.
Proof.
  apply (get_issuers_invalid_byte _ xff).
  - right. left. reflexivity.
  - vm_compute. discriminate.
Defined.
